(** * omni_var: transaction-scoped and session-scoped variables

    A shallow embedding of [extensions/omni_var/omni_var.c] together with the
    properties of its version chains: rollback on subtransaction abort, the
    read path of [get] / [get_session], and the session store.

    The C file keeps its state in statics ([last_used_txnid], [current_tab],
    [session_tab], the two registration flags) and in heap nodes of type
    [VariableValue] linked through [previous].  The embedding keeps that
    shape: a [State] record for the statics and a [memory] that maps a
    pointer to the [VariableValue] stored there. *)

From stdpp Require Import base option numbers list strings pretty gmap fin_maps.
From Stdlib Require Import ZArith Lia.

Local Open Scope Z_scope.

(** ** Scalar types of the host *)

Definition Oid := Z.
Definition InvalidOid : Oid := 0.

Definition TransactionId := Z.
Definition InvalidTransactionId : TransactionId := 0.

Definition SubTransactionId := Z.

(** A [Datum] stands for the content it designates: for a by-reference type
    the copy made by [set] (detoasted copy or [palloc] + [memcpy]) is a
    chunk of its own in the table's memory context and designates the same
    content as the argument it was copied from. *)
Definition Datum := Z.

(** [NameData]: the hash key; both tables are keyed by the C string in it. *)
Definition Name := string.

(** ** Memory *)

Inductive MemoryContext := TopTransactionContext | TopMemoryContext.

(** The two dynahash tables of the file. *)
Inductive Table := CurrentTab | SessionTab.

(** A [VariableValue *].  A node is either a chunk returned by [palloc] in
    one of the two memory contexts, or the [initial_allocation] member that
    is embedded in the hash entry of a name ([&var->initial_allocation]).
    The C null pointer is [None] at type [option pointer].

    An entry that is entered again after its removal, or entered in the
    table of a later transaction, has its embedded node at the same
    pointer, holding what the memory held: dynahash hands out entries
    without clearing them.  Chunks are never handed out twice; the reset
    of the transaction's context at its end is the host's and is not part
    of the state. *)
Inductive pointer :=
| Chunk (cx : MemoryContext) (a : nat)
| Embedded (t : Table) (n : Name).

Global Instance MemoryContext_eq_dec : EqDecision MemoryContext.
Proof. solve_decision. Defined.
Global Instance Table_eq_dec : EqDecision Table.
Proof. solve_decision. Defined.
Global Instance pointer_eq_dec : EqDecision pointer.
Proof. solve_decision. Defined.

Record VariableValue := mkVariableValue {
  isnull : bool;
  oid : Oid;
  subxactid : SubTransactionId; (* Only used for transactional variables *)
  value : Datum;
  previous : option pointer
}.

(** The hash entry, [Variable] in the C file (the trailing underscore avoids
    the vernacular keyword).  Its third member, [initial_allocation], is a
    [VariableValue] stored inline; it is addressed as [Embedded t name] and
    its content lives in [memory] like that of every other node. *)
Record Variable_ := mkVariable {
  name : Name;
  variable_value : pointer
}.

Abbreviation HTAB := (gmap Name Variable_).

(** Messages raised through [ereport]. *)
Record ErrorData := mkError {
  errmsg : string;
  errdetail : option string
}.

(** The statics of the file and the memory they point into.  [memory] is
    total: a location that was never written holds whatever was there,
    which is what [palloc] hands out (it does not clear the chunk).
    [allocated cx] counts the chunks handed out in [cx], the nodes and the
    copies of by-reference payloads alike. *)
Record State := mkState {
  last_used_txnid : TransactionId;
  current_tab : option HTAB;
  session_tab : option HTAB;
  subtransaction_callback_registered : bool;
  transaction_callback_registered : bool;
  memory : pointer -> VariableValue;
  allocated : MemoryContext -> nat;
  notices : list string
}.

Definition initial_state (mem : pointer -> VariableValue) : State :=
  {| last_used_txnid := InvalidTransactionId;
     current_tab := None;
     session_tab := None;
     subtransaction_callback_registered := false;
     transaction_callback_registered := false;
     memory := mem;
     allocated := fun _ => 0%nat;
     notices := [] |}.

(** *** Field writes *)

Definition with_last_used_txnid (x : TransactionId) (st : State) : State :=
  {| last_used_txnid := x; current_tab := current_tab st;
     session_tab := session_tab st;
     subtransaction_callback_registered := subtransaction_callback_registered st;
     transaction_callback_registered := transaction_callback_registered st;
     memory := memory st; allocated := allocated st; notices := notices st |}.

Definition with_current_tab (t : option HTAB) (st : State) : State :=
  {| last_used_txnid := last_used_txnid st; current_tab := t;
     session_tab := session_tab st;
     subtransaction_callback_registered := subtransaction_callback_registered st;
     transaction_callback_registered := transaction_callback_registered st;
     memory := memory st; allocated := allocated st; notices := notices st |}.

Definition with_session_tab (t : option HTAB) (st : State) : State :=
  {| last_used_txnid := last_used_txnid st; current_tab := current_tab st;
     session_tab := t;
     subtransaction_callback_registered := subtransaction_callback_registered st;
     transaction_callback_registered := transaction_callback_registered st;
     memory := memory st; allocated := allocated st; notices := notices st |}.

Definition with_subtransaction_callback_registered (b : bool) (st : State) : State :=
  {| last_used_txnid := last_used_txnid st; current_tab := current_tab st;
     session_tab := session_tab st;
     subtransaction_callback_registered := b;
     transaction_callback_registered := transaction_callback_registered st;
     memory := memory st; allocated := allocated st; notices := notices st |}.

Definition with_transaction_callback_registered (b : bool) (st : State) : State :=
  {| last_used_txnid := last_used_txnid st; current_tab := current_tab st;
     session_tab := session_tab st;
     subtransaction_callback_registered := subtransaction_callback_registered st;
     transaction_callback_registered := b;
     memory := memory st; allocated := allocated st; notices := notices st |}.

Definition with_memory (m : pointer -> VariableValue) (st : State) : State :=
  {| last_used_txnid := last_used_txnid st; current_tab := current_tab st;
     session_tab := session_tab st;
     subtransaction_callback_registered := subtransaction_callback_registered st;
     transaction_callback_registered := transaction_callback_registered st;
     memory := m; allocated := allocated st; notices := notices st |}.

Definition with_allocated (a : MemoryContext -> nat) (st : State) : State :=
  {| last_used_txnid := last_used_txnid st; current_tab := current_tab st;
     session_tab := session_tab st;
     subtransaction_callback_registered := subtransaction_callback_registered st;
     transaction_callback_registered := transaction_callback_registered st;
     memory := memory st; allocated := a; notices := notices st |}.

Definition with_notice (s : string) (st : State) : State :=
  {| last_used_txnid := last_used_txnid st; current_tab := current_tab st;
     session_tab := session_tab st;
     subtransaction_callback_registered := subtransaction_callback_registered st;
     transaction_callback_registered := transaction_callback_registered st;
     memory := memory st; allocated := allocated st;
     notices := notices st ++ [s] |}.

(** [*p = f ( *p )]: a write through a pointer. *)
Definition poke (p : pointer) (f : VariableValue -> VariableValue) (st : State) : State :=
  with_memory (fun q => if decide (q = p) then f (memory st p) else memory st q) st.

Definition set_isnull (b : bool) (v : VariableValue) : VariableValue :=
  {| isnull := b; oid := oid v; subxactid := subxactid v; value := value v;
     previous := previous v |}.
Definition set_oid (o : Oid) (v : VariableValue) : VariableValue :=
  {| isnull := isnull v; oid := o; subxactid := subxactid v; value := value v;
     previous := previous v |}.
Definition set_subxactid (s : SubTransactionId) (v : VariableValue) : VariableValue :=
  {| isnull := isnull v; oid := oid v; subxactid := s; value := value v;
     previous := previous v |}.
Definition set_value (d : Datum) (v : VariableValue) : VariableValue :=
  {| isnull := isnull v; oid := oid v; subxactid := subxactid v; value := d;
     previous := previous v |}.
Definition set_previous (p : option pointer) (v : VariableValue) : VariableValue :=
  {| isnull := isnull v; oid := oid v; subxactid := subxactid v; value := value v;
     previous := p |}.

(** [MemoryContextSwitchTo(cx); palloc(sizeof(VariableValue))]: the next
    chunk of [cx]; its content is not touched. *)
Definition palloc (cx : MemoryContext) (st : State) : pointer * State :=
  (Chunk cx (allocated st cx),
   with_allocated (fun c => if decide (c = cx) then S (allocated st cx)
                            else allocated st c) st).

(** ** Calls *)

(** What a SQL-callable function sees of its [fcinfo]: the name argument
    ([None] when [PG_ARGISNULL(0)]), the type of the second argument as
    found by [get_fn_expr_argtype] ([InvalidOid] when it cannot be
    inferred) and the second argument itself. *)
Record FunctionCallInfo := mkFcinfo {
  arg_name : option Name;
  arg_type : Oid;
  arg_isnull : bool;
  arg_datum : Datum
}.

(** How a call ends: a datum, SQL null ([PG_RETURN_NULL]) or
    [ereport(ERROR, ...)]. *)
Inductive Result :=
| Return (d : Datum)
| ReturnNull
| Ereport (e : ErrorData).

Inductive SubXactEvent :=
| SUBXACT_EVENT_START_SUB
| SUBXACT_EVENT_COMMIT_SUB
| SUBXACT_EVENT_ABORT_SUB
| SUBXACT_EVENT_PRE_COMMIT_SUB.

Inductive XactEvent :=
| XACT_EVENT_COMMIT
| XACT_EVENT_PARALLEL_COMMIT
| XACT_EVENT_ABORT
| XACT_EVENT_PARALLEL_ABORT
| XACT_EVENT_PREPARE
| XACT_EVENT_PRE_COMMIT
| XACT_EVENT_PARALLEL_PRE_COMMIT
| XACT_EVENT_PRE_PREPARE.

(** What the file asks of the host's catalog and build: [get_typbyval],
    [get_typlen], [format_type_be] and the major version the file is
    compiled against. *)
Class Host := {
  get_typbyval : Oid -> bool;
  get_typlen : Oid -> Z;
  format_type_be : Oid -> string;
  PG_MAJORVERSION_NUM : Z
}.

(** [palloc] checks the size it is asked for: the argument is a [Size]
    (unsigned, 64 bits here), and a request above [MaxAllocSize] ends in
    [elog(ERROR, "invalid memory alloc request size %zu", size)] before
    any chunk is taken.  [typlen] is an [int16]: a negative one converts
    to a [Size] far above the limit. *)
Definition MaxAllocSize : Z := 1073741823. (* 0x3fffffff *)

Definition Size_of (n : Z) : Z := n mod 2 ^ 64.

Definition AllocSizeIsValid (size : Z) : bool := Size_of size <=? MaxAllocSize.

Definition invalid_memory_alloc_request_size (size : Z) : ErrorData :=
  {| errmsg := "invalid memory alloc request size " +:+ pretty (Size_of size);
     errdetail := None |}.

(** Copies of a by-reference argument into the memory context [cx] that
    the caller switched to.  Each takes one chunk of [cx] and designates
    the content of the argument.

    [PG_DETOAST_DATUM_COPY]: the copy of a varlena, of the size the varlena
    has. *)
Definition PG_DETOAST_DATUM_COPY (cx : MemoryContext) (d : Datum) (st : State)
    : Datum * State :=
  (d, (palloc cx st).2).

(** [ptr = palloc(typlen); memcpy(ptr, DatumGetPointer(d), typlen)]. *)
Definition palloc_memcpy (cx : MemoryContext) (typlen : Z) (d : Datum) (st : State)
    : ErrorData + Datum * State :=
  if AllocSizeIsValid typlen then inr (d, (palloc cx st).2)
  else inl (invalid_memory_alloc_request_size typlen).

Definition name_must_not_be_null : ErrorData :=
  {| errmsg := "variable name must not be a null"; errdetail := None |}.
Definition value_type_cant_be_inferred : ErrorData :=
  {| errmsg := "value type can't be inferred"; errdetail := None |}.
Definition default_value_type_cant_be_inferred : ErrorData :=
  {| errmsg := "default value type can't be inferred"; errdetail := None |}.

Section Operations.
Context `{Host}.

(** [errmsg("type mismatch"), errdetail("expected %s, got %s", ...)]:
    the stored type first, the requested type second. *)
Definition type_mismatch (stored requested : Oid) : ErrorData :=
  {| errmsg := "type mismatch";
     errdetail := Some ("expected " +:+ format_type_be stored +:+
                        ", got " +:+ format_type_be requested) |}.

(** The lines that store the payload, shared by [set] (with
    [TopTransactionContext]) and [set_session] (with [TopMemoryContext]).
    [inl]: [palloc(typlen)] raised; nothing was written through [vvar]. *)
Definition store_value (cx : MemoryContext) (vvar : pointer) (fc : FunctionCallInfo)
    (st : State) : ErrorData + State :=
  let value_type := arg_type fc in
  let byval := get_typbyval value_type in
  let typlen := get_typlen value_type in
  if byval then inr (poke vvar (set_value (arg_datum fc)) st)
  else if negb (arg_isnull fc) then
    (* copy the value into the context of the hash table *)
    if typlen =? -1 then
      let '(d, st) := PG_DETOAST_DATUM_COPY cx (arg_datum fc) st in
      inr (poke vvar (set_value d) st)
    else
      match palloc_memcpy cx typlen (arg_datum fc) st with
      | inl e => inl e
      | inr (d, st) => inr (poke vvar (set_value d) st)
      end
  else inr st.

(** ** [subtransaction_callback] *)

(** What the inner [while (vvar != NULL)] loop decides for one variable. *)
Inductive Unwound :=
| Remove                 (* [hash_search(..., HASH_REMOVE, ...)] *)
| Use (vvar : pointer).  (* the value set at a lower subxact *)

(** The inner loop, started at [vvar].  [None]: the loop is still running
    after [fuel] iterations. *)
Fixpoint unwind (fuel : nat) (mem : pointer -> VariableValue)
    (xact_id : SubTransactionId) (vvar : pointer) : option Unwound :=
  match fuel with
  | O => None
  | S fuel' =>
      if xact_id <=? subxactid (mem vvar) then
        (* set at this subxact ID or higher (at or after) *)
        match previous (mem vvar) with
        | None => Some Remove
        | Some p => unwind fuel' mem xact_id p
        end
      else Some (Use vvar)
  end.

(** One iteration of the outer loop, on the entry [var] found by
    [hash_seq_search]; [tab] is the table as the earlier iterations left
    it. *)
Definition unwind_variable (fuel : nat) (mem : pointer -> VariableValue)
    (xact_id : SubTransactionId) (var : Variable_) (tab : option HTAB) : option HTAB :=
  tab ≫= fun tab =>
  match unwind fuel mem xact_id (variable_value var) with
  | None => None
  | Some Remove => Some (delete (name var) tab)
  | Some (Use vvar) =>
      if decide (vvar = variable_value var) then Some tab
      else Some (<[name var := {| name := name var; variable_value := vvar |}]> tab)
  end.

Definition subtransaction_callback (fuel : nat) (event : SubXactEvent)
    (xact_id parent_xact_id : SubTransactionId) (st : State) : option State :=
  match event with
  | SUBXACT_EVENT_ABORT_SUB =>
      match current_tab st with
      | None => Some st (* Nothing to process, bail *)
      | Some tab =>
          tab' ← map_fold (fun _ var acc => unwind_variable fuel (memory st) xact_id var acc)
                          (Some tab) tab;
          Some (with_current_tab (Some tab') st)
      end
  | _ => Some st
  end.

(** ** [transaction_callback] *)

Definition transaction_callback (event : XactEvent) (st : State) : State :=
  match event with
  | XACT_EVENT_ABORT | XACT_EVENT_COMMIT
  | XACT_EVENT_PARALLEL_ABORT | XACT_EVENT_PARALLEL_COMMIT =>
      let st :=
        if subtransaction_callback_registered st
        then with_subtransaction_callback_registered false st else st in
      if transaction_callback_registered st then
        if 16 <=? PG_MAJORVERSION_NUM
        then with_transaction_callback_registered false st
        else st
      else st
  | _ => st
  end.

(** ** [set] *)

(** The two [Register...Callback] blocks, each guarded by its flag. *)
Definition register_callbacks (st : State) : State :=
  (* Register callback to cleanup sub-transaction callback *)
  let st := if transaction_callback_registered st then st
            else with_transaction_callback_registered true st in
  (* Register callback to handle aborting sub-transactions *)
  if subtransaction_callback_registered st then st
  else with_subtransaction_callback_registered true st.

(** [if (last_used_txnid != txnid)]: a new table; the old one is left to
    the transaction's memory context. *)
Definition new_table_if_needed (txnid : TransactionId) (st : State) : State :=
  if last_used_txnid st =? txnid then st
  else with_last_used_txnid txnid (with_current_tab (Some ∅) st).

(** [hash_search(current_tab, name, HASH_ENTER, &found)] and the branch on
    [found && vvar->subxactid < subtxnid]: the node the call is going to
    fill, with its [previous] link set. *)
Definition enter (nm : Name) (subtxnid : SubTransactionId) (tab : HTAB)
    (st : State) : pointer * State :=
  match tab !! nm with
  | Some var =>
      let vvar := variable_value var in
      if subxactid (memory st vvar) <? subtxnid then
        (* the current sub-transaction is newer than the one used *)
        let previous := vvar in
        let '(vvar, st) := palloc TopTransactionContext st in
        (* Ensure variable points to it *)
        let st := with_current_tab
                    (Some (<[nm := {| name := name var; variable_value := vvar |}]> tab)) st in
        (* Ensure this new variable value points to the previous one *)
        (vvar, poke vvar (set_previous (Some previous)) st)
      else
        (* Otherwise, there are no older values *)
        (vvar, poke vvar (set_previous None) st)
  | None =>
      (* initialize the pointer to the initial allocation *)
      let vvar := Embedded CurrentTab nm in
      let st := with_current_tab
                  (Some (<[nm := {| name := nm; variable_value := vvar |}]> tab)) st in
      (vvar, poke vvar (set_previous None) st)
  end.

(** [txnid] is what [GetTopTransactionId()] returns and [subtxnid] what
    [GetCurrentSubTransactionId()] returns at the call.  The result is
    [None] when the call dereferences a null [current_tab].  When the copy
    of the payload raises, the entry is already in the table and its node
    linked, while [oid], [isnull] and [subxactid] are not written yet: the
    state is the one [enter] left. *)
Definition set (txnid : TransactionId) (subtxnid : SubTransactionId)
    (fc : FunctionCallInfo) (st : State) : option (Result * State) :=
  match arg_name fc with
  | None => Some (Ereport name_must_not_be_null, st)
  | Some nm =>
      let value_type := arg_type fc in
      if value_type =? InvalidOid
      then Some (Ereport value_type_cant_be_inferred, st)
      else
        let st := register_callbacks st in
        let st := new_table_if_needed txnid st in
        match current_tab st with
        | None => None
        | Some tab =>
            let '(vvar, st) := enter nm subtxnid tab st in
            match store_value TopTransactionContext vvar fc st with
            | inl e => Some (Ereport e, st)
            | inr st =>
                let st := poke vvar (set_oid value_type) st in
                let st := poke vvar (set_isnull (arg_isnull fc)) st in
                let st := poke vvar (set_subxactid subtxnid) st in
                if arg_isnull fc then Some (ReturnNull, st)
                else Some (Return (value (memory st vvar)), st)
            end
        end
  end.

(** ** [get] *)

(** The code at the label [default_value]. *)
Definition default_value (fc : FunctionCallInfo) : Result :=
  if arg_isnull fc then ReturnNull else Return (arg_datum fc).

(** The part of [get] and [get_session] after the entry was found. *)
Definition read (vvar : VariableValue) (value_type : Oid) : Result :=
  if isnull vvar then ReturnNull
  else if negb (oid vvar =? value_type)
  then Ereport (type_mismatch (oid vvar) value_type)
  else Return (value vvar).

(** [txnid] is what [GetTopTransactionIdIfAny()] returns at the call. *)
Definition get (txnid : TransactionId) (fc : FunctionCallInfo) (st : State)
    : option (Result * State) :=
  match arg_name fc with
  | None => Some (Ereport name_must_not_be_null, st)
  | Some nm =>
  let value_type := arg_type fc in
  if value_type =? InvalidOid
  then Some (Ereport default_value_type_cant_be_inferred, st) else
  if (txnid =? InvalidTransactionId) || negb (last_used_txnid st =? txnid) then
    (* No variables as we haven't set anything in the current session *)
    Some (default_value fc, st)
  else
  match current_tab st with
  | None => None
  | Some tab =>
      match tab !! nm with
      | Some var => Some (read (memory st (variable_value var)) value_type, st)
      | None => Some (default_value fc, st)
      end
  end
  end.

(** ** [set_session] and [get_session] *)

Definition set_session (fc : FunctionCallInfo) (st : State) : Result * State :=
  match arg_name fc with
  | None => (Ereport name_must_not_be_null, st)
  | Some nm =>
  let value_type := arg_type fc in
  if value_type =? InvalidOid then (Ereport value_type_cant_be_inferred, st) else
  let tab := match session_tab st with Some tab => tab | None => ∅ end in
  let '(vvar, st) :=
    match tab !! nm with
    | Some var =>
        let '(vvar, st) := palloc TopMemoryContext st in
        (* Ensure variable points to it *)
        (vvar, with_session_tab
                 (Some (<[nm := {| name := name var; variable_value := vvar |}]> tab)) st)
    | None =>
        let vvar := Embedded SessionTab nm in
        let st := with_session_tab
                    (Some (<[nm := {| name := nm; variable_value := vvar |}]> tab)) st in
        (vvar, poke vvar (set_previous None) st)
    end in
  match store_value TopMemoryContext vvar fc st with
  | inl e => (Ereport e, st)
  | inr st =>
      let st := poke vvar (set_oid value_type) st in
      let st := with_notice (format_type_be (oid (memory st vvar))) st in
      let st := poke vvar (set_isnull (arg_isnull fc)) st in
      if arg_isnull fc then (ReturnNull, st)
      else (Return (value (memory st vvar)), st)
  end
  end.

Definition get_session (fc : FunctionCallInfo) (st : State) : Result * State :=
  match arg_name fc with
  | None => (Ereport name_must_not_be_null, st)
  | Some nm =>
  let value_type := arg_type fc in
  if value_type =? InvalidOid
  then (Ereport default_value_type_cant_be_inferred, st) else
  match session_tab st with
  | None => (default_value fc, st)
  | Some tab =>
      match tab !! nm with
      | Some var => (read (memory st (variable_value var)) value_type, st)
      | None => (default_value fc, st)
      end
  end
  end.

End Operations.

(** ** Version chains and the states the code can reach *)

(** [chain mem p l]: following [previous] from [p] visits exactly the
    nodes [l], [p] first, and ends on a node whose link is null. *)
Inductive chain (mem : pointer -> VariableValue) : pointer -> list pointer -> Prop :=
| chain_end p :
    previous (mem p) = None -> chain mem p [p]
| chain_link p q l :
    previous (mem p) = Some q -> chain mem q l -> chain mem p (p :: l).

(** The subtransaction identifiers strictly decrease along [l]. *)
Fixpoint descending (mem : pointer -> VariableValue) (l : list pointer) : Prop :=
  match l with
  | p :: (q :: _) as t => subxactid (mem q) < subxactid (mem p) /\ descending mem t
  | _ => True
  end.

(** The same walk as a function, for running it on a concrete state. *)
Fixpoint walk (fuel : nat) (mem : pointer -> VariableValue) (p : pointer)
    : option (list pointer) :=
  match fuel with
  | O => None
  | S fuel' =>
      match previous (mem p) with
      | None => Some [p]
      | Some q => cons p <$> walk fuel' mem q
      end
  end.

(** Nodes a transactional variable [n] may be made of: its own embedded
    node, or a chunk of the transaction's context that was allocated for
    it ([own] records for which name each chunk was allocated). *)
Definition owned (own : nat -> Name) (bound : nat) (n : Name) (p : pointer) : Prop :=
  p = Embedded CurrentTab n \/
  exists a, p = Chunk TopTransactionContext a /\ (a < bound)%nat /\ own a = n.

(** What is known of the chain of a variable: it is finite and made of
    nodes of the variable's own.  With [ordered] set its identifiers also
    strictly decrease; that part does not survive a [set] that raises after
    it linked a new node, which is why it is kept apart. *)
Definition good_variable (ordered : bool) (mem : pointer -> VariableValue)
    (own : nat -> Name) (bound : nat) (n : Name) (var : Variable_) : Prop :=
  name var = n /\
  exists l, chain mem (variable_value var) l /\
            (ordered = true -> descending mem l) /\
            Forall (owned own bound n) l.

Definition good_table (ordered : bool) (mem : pointer -> VariableValue) (bound : nat)
    (tab : HTAB) : Prop :=
  exists own, forall n var, tab !! n = Some var -> good_variable ordered mem own bound n var.

Definition invariant (ordered : bool) (st : State) : Prop :=
  (current_tab st = None -> last_used_txnid st = InvalidTransactionId) /\
  (forall tab, current_tab st = Some tab ->
     good_table ordered (memory st) (allocated st TopTransactionContext) tab).

Section Reachability.
Context `{Host}.

(** The states of a backend: it starts with the statics as initialised in
    the file and with arbitrary memory content, and then runs the four
    SQL functions and the two callbacks in any order.  The host never
    hands out [InvalidTransactionId] from [GetTopTransactionId()].

    A call that raises is a step like any other: the state it leaves is
    the one at the [ereport], so the states in which [set] or [set_session]
    linked a node and then failed to copy the payload are among these.

    The reset of [TopTransactionContext] at the end of a transaction is
    the host's and is not a step.  [set] and [get] read [current_tab] only
    under the transaction that made it; the subtransaction callback reads
    it whenever the host calls it.  [transaction_callback] unregisters it
    at commit and abort but not at [XACT_EVENT_PREPARE]: a subtransaction
    event of a later transaction that arrives before the next [set] finds
    [current_tab] pointing into memory that was freed.  What the callback
    does then is not defined by the C file, and these states say nothing
    about it. *)
Inductive reachable : State -> Prop :=
| reachable_initial mem :
    reachable (initial_state mem)
| reachable_set st txnid subtxnid fc r st' :
    reachable st -> txnid <> InvalidTransactionId ->
    set txnid subtxnid fc st = Some (r, st') -> reachable st'
| reachable_get st txnid fc r st' :
    reachable st -> get txnid fc st = Some (r, st') -> reachable st'
| reachable_set_session st fc :
    reachable st -> reachable (set_session fc st).2
| reachable_get_session st fc :
    reachable st -> reachable (get_session fc st).2
| reachable_subtransaction_callback st fuel event xact_id parent_xact_id st' :
    reachable st ->
    subtransaction_callback fuel event xact_id parent_xact_id st = Some st' ->
    reachable st'
| reachable_transaction_callback st event :
    reachable st -> reachable (transaction_callback event st).

(** The same, without the calls of [set] that raised after they entered
    the name: every node that was linked was also filled. *)
Inductive reachable_filled : State -> Prop :=
| filled_initial mem :
    reachable_filled (initial_state mem)
| filled_set st txnid subtxnid fc r st' :
    reachable_filled st -> txnid <> InvalidTransactionId ->
    set txnid subtxnid fc st = Some (r, st') ->
    (forall e, r = Ereport e -> st' = st) ->
    reachable_filled st'
| filled_get st txnid fc r st' :
    reachable_filled st -> get txnid fc st = Some (r, st') -> reachable_filled st'
| filled_set_session st fc :
    reachable_filled st -> reachable_filled (set_session fc st).2
| filled_get_session st fc :
    reachable_filled st -> reachable_filled (get_session fc st).2
| filled_subtransaction_callback st fuel event xact_id parent_xact_id st' :
    reachable_filled st ->
    subtransaction_callback fuel event xact_id parent_xact_id st = Some st' ->
    reachable_filled st'
| filled_transaction_callback st event :
    reachable_filled st -> reachable_filled (transaction_callback event st).

End Reachability.

(** ** A concrete host and concrete calls, for running the code *)

Definition int4 : Oid := 23.
Definition text : Oid := 25.

(** [integer] is passed by value, everything else is a varlena. *)
Definition example_host : Host :=
  {| get_typbyval := fun o => o =? int4;
     get_typlen := fun o => if o =? int4 then 4 else -1;
     format_type_be := fun o => if o =? int4 then "integer"%string
                                else if o =? text then "text"%string
                                else "-"%string;
     PG_MAJORVERSION_NUM := 16 |}.

(** The same catalog with [cstring], passed by reference with [typlen]
    -2. *)
Definition cstring : Oid := 2275.

Definition cstring_host : Host :=
  {| get_typbyval := fun o => o =? int4;
     get_typlen := fun o => if o =? int4 then 4 else if o =? cstring then -2 else -1;
     format_type_be := fun o => if o =? int4 then "integer"%string
                                else if o =? text then "text"%string
                                else if o =? cstring then "cstring"%string
                                else "-"%string;
     PG_MAJORVERSION_NUM := 16 |}.

(** [f(nm, v :: ty)] and [f(nm, NULL :: ty)]. *)
Definition call (nm : Name) (ty : Oid) (v : Datum) : FunctionCallInfo :=
  {| arg_name := Some nm; arg_type := ty; arg_isnull := false; arg_datum := v |}.
Definition call_null (nm : Name) (ty : Oid) : FunctionCallInfo :=
  {| arg_name := Some nm; arg_type := ty; arg_isnull := true; arg_datum := 0 |}.

(** Memory that happens to be all zeroes. *)
Definition zeroed : pointer -> VariableValue :=
  fun _ => {| isnull := false; oid := 0; subxactid := 0; value := 0; previous := None |}.

(** Memory as [palloc] may find it after earlier use: every word holds
    leftover bits, so a link read from it is not null. *)
Definition leftover : pointer -> VariableValue :=
  fun _ => {| isnull := true; oid := 705; subxactid := 77; value := 12345;
              previous := Some (Chunk TopMemoryContext 99) |}.

(** The state a call leaves; that of [st] when the call has none. *)
Definition state_after (st : State) (o : option (Result * State)) : State :=
  match o with
  | Some (_, st') => st'
  | None => st
  end.

(** The states of the examples.  Transaction 100 writes [x]: in
    subtransaction 1, then in subtransaction 2, then once more in
    subtransaction 2. *)
Definition wrote_x_once : State :=
  state_after (initial_state zeroed)
    (set (H := example_host) 100 1 (call "x" int4 1) (initial_state zeroed)).
Definition wrote_x_twice : State :=
  state_after wrote_x_once (set (H := example_host) 100 2 (call "x" int4 2) wrote_x_once).
Definition wrote_x_again : State :=
  state_after wrote_x_twice (set (H := example_host) 100 2 (call "x" int4 3) wrote_x_twice).

(** Transaction 100 stores a null [integer] under [x]. *)
Definition wrote_x_null : State :=
  state_after (initial_state zeroed)
    (set (H := example_host) 100 1 (call_null "x" int4) (initial_state zeroed)).

(** Transaction 100 writes an [integer] under [x] in subtransaction 5;
    in subtransaction 6 it calls [set] with a [cstring] for [x], which
    raises; the host then aborts subtransaction 6. *)
Definition wrote_x_in_5 : State :=
  state_after (initial_state zeroed)
    (set (H := cstring_host) 100 5 (call "x" int4 1) (initial_state zeroed)).
Definition raised_in_6 : State :=
  state_after wrote_x_in_5 (set (H := cstring_host) 100 6 (call "x" cstring 7) wrote_x_in_5).
Definition aborted_6 : State :=
  default raised_in_6 (subtransaction_callback 2 SUBXACT_EVENT_ABORT_SUB 6 5 raised_in_6).

(** A session stores [s] twice, in memory that was used before. *)
Definition session_wrote_s_once : State :=
  (set_session (H := example_host) (call "s" int4 1) (initial_state leftover)).2.
Definition session_wrote_s_twice : State :=
  (set_session (H := example_host) (call "s" int4 2) session_wrote_s_once).2.

(** * [omni/module.c]: the [hooks] set-returning function *)

Module Omni.

(** What [hooks] reads of an [omni_handle_private]: its [id]. *)
Record omni_handle_private := {
  id : Z
}.

(** What [hooks] reads of a [hook_entry_point]: [handle], null or the
    address of the [handle] member of the private handle of the module
    that owns the hook ([struct_from_member] goes back from it to the
    private handle), and [name], a C string or null. *)
Record hook_entry_point := {
  handle : option omni_handle_private;
  name : option string
}.

(** [hook_entry_points]: for every hook type an array of entry points and
    the number of them in use, a C [int]. *)
Record hook_entry_points_t := {
  entry_points_count : nat -> Z;
  entry_points : nat -> list hook_entry_point
}.

(** A tuple as [tuplestore_putvalues] stores it: a column whose [isnull]
    flag is set is [None]; the flag of the fourth column is never set. *)
Record hooks_row := {
  hook_type : option string;
  hook_name : option string;
  module_id : option Z;
  pos : Z
}.

Section Hooks.

(** [omni_hook_types], the table of type names of [hook_types.h], and
    [__OMNI_HOOK_TYPE_COUNT], the number of hook types. *)
Variable omni_hook_types : nat -> option string.
Variable OMNI_HOOK_TYPE_COUNT : nat.

(** [values] and [isnull] of one iteration of the inner loop. *)
Definition hooks_values (hep : hook_entry_points_t) (type i : nat)
    (hook : hook_entry_point) : hooks_row :=
  let phandle := handle hook in
  {| hook_type := omni_hook_types type;
     hook_name := name hook;
     module_id := id <$> phandle;
     pos := entry_points_count hep type - Z.of_nat i |}.

(** [for (int i = count - 1; i >= 0; i--)]: [n] iterations are left, the
    next one for [i = n - 1].  [None]: the loop reads past the array. *)
Fixpoint hooks_entry_points (hep : hook_entry_points_t) (type n : nat)
    (tupstore : list hooks_row) : option (list hooks_row) :=
  match n with
  | O => Some tupstore
  | S i =>
      match entry_points hep type !! i with
      | Some hook =>
          hooks_entry_points hep type i (tupstore ++ [hooks_values hep type i hook])
      | None => None
      end
  end.

(** [for (int type = 0; type < __OMNI_HOOK_TYPE_COUNT; type++)]: [n]
    types are left, the next one being [type].  A count that is not
    positive gives no iteration of the inner loop. *)
Fixpoint hooks_types (hep : hook_entry_points_t) (n type : nat)
    (tupstore : list hooks_row) : option (list hooks_row) :=
  match n with
  | O => Some tupstore
  | S n' =>
      match hooks_entry_points hep type (Z.to_nat (entry_points_count hep type)) tupstore with
      | Some tupstore => hooks_types hep n' (S type) tupstore
      | None => None
      end
  end.

(** The tuplestore that [hooks] hands back in [rsinfo->setResult]; the
    function itself returns SQL null. *)
Definition hooks (hep : hook_entry_points_t) : option (list hooks_row) :=
  hooks_types hep OMNI_HOOK_TYPE_COUNT 0 [].

(** The rows of one hook type, and the number of rows of the types before
    a type. *)
Definition rows_of_type (hep : hook_entry_points_t) (type : nat) : list hooks_row :=
  reverse (imap (hooks_values hep type)
             (take (Z.to_nat (entry_points_count hep type)) (entry_points hep type))).

Definition rows_before (hep : hook_entry_points_t) (type : nat) : nat :=
  sum_list_with (fun t => Z.to_nat (entry_points_count hep t)) (seq 0 type).

End Hooks.

(** Two hook types, the first with three entry points in an array of four,
    the second with none. *)
Definition example_types (type : nat) : option string :=
  match type with
  | O => Some "executor_start"%string
  | S O => Some "process_utility"%string
  | _ => None
  end.

Definition example_entry_points : hook_entry_points_t :=
  {| entry_points_count := fun type => match type with O => 3 | _ => 0 end;
     entry_points := fun type =>
       match type with
       | O => [ {| handle := None; name := Some "default"%string |};
                {| handle := Some {| id := 7 |}; name := Some "first"%string |};
                {| handle := Some {| id := 9 |}; name := None |};
                {| handle := None; name := None |} ]
       | _ => []
       end |}.

End Omni.

(** ** Vocabulary for the proofs *)

(** The pointers of the transactional table; the session functions write
    through none of them. *)
Definition transactional (p : pointer) : Prop :=
  match p with
  | Chunk TopTransactionContext _ | Embedded CurrentTab _ => True
  | _ => False
  end.

Section Vocabulary.
Context `{Host}.

(** What the callback leaves in the table for an entry [var]. *)
Definition unwound_entry (fuel : nat) (mem : pointer -> VariableValue)
    (xact_id : SubTransactionId) (var : Variable_) : option Variable_ :=
  match unwind fuel mem xact_id (variable_value var) with
  | Some (Use p) => Some {| name := name var; variable_value := p |}
  | _ => None
  end.

(** The table [set] works on: the current one if it belongs to the running
    top-level transaction, a new empty one otherwise. *)
Definition resolved (txnid : TransactionId) (st : State) : HTAB :=
  if last_used_txnid st =? txnid then default ∅ (current_tab st) else ∅.

(** The types whose values the payload lines can store: passed by value,
    a varlena, or of a length [palloc] accepts. *)
Definition storable (value_type : Oid) : bool :=
  get_typbyval value_type || (get_typlen value_type =? -1) ||
  AllocSizeIsValid (get_typlen value_type).

(** The calls whose payload copy raises, and the number of chunks the copy
    takes when it does not. *)
Definition copy_raises (fc : FunctionCallInfo) : bool :=
  negb (arg_isnull fc) && negb (storable (arg_type fc)).

Definition payload_chunks (fc : FunctionCallInfo) : nat :=
  if get_typbyval (arg_type fc) || arg_isnull fc || copy_raises fc then 0%nat else 1%nat.

(** How a call of [set] or [set_session] ends once the name was entered. *)
Definition outcome (fc : FunctionCallInfo) : Result :=
  if copy_raises fc
  then Ereport (invalid_memory_alloc_request_size (get_typlen (arg_type fc)))
  else if arg_isnull fc then ReturnNull else Return (arg_datum fc).

(** The three ways [set] finds its node [vvar]; [k] is the number of
    chunks taken after the node. *)
Inductive entered (nm : Name) (subtxnid : SubTransactionId) (tab : HTAB)
    (st st' : State) (vvar : pointer) (k : nat) : Prop :=
| entered_new :
    tab !! nm = None ->
    vvar = Embedded CurrentTab nm ->
    current_tab st' = Some (<[nm := {| name := nm; variable_value := vvar |}]> tab) ->
    allocated st' TopTransactionContext = (allocated st TopTransactionContext + k)%nat ->
    previous (memory st' vvar) = None ->
    entered nm subtxnid tab st st' vvar k
| entered_push var :
    tab !! nm = Some var ->
    subxactid (memory st (variable_value var)) < subtxnid ->
    vvar = Chunk TopTransactionContext (allocated st TopTransactionContext) ->
    current_tab st' = Some (<[nm := {| name := name var; variable_value := vvar |}]> tab) ->
    allocated st' TopTransactionContext = S (allocated st TopTransactionContext + k) ->
    previous (memory st' vvar) = Some (variable_value var) ->
    entered nm subtxnid tab st st' vvar k
| entered_overwrite var :
    tab !! nm = Some var ->
    subtxnid <= subxactid (memory st (variable_value var)) ->
    vvar = variable_value var ->
    current_tab st' = Some tab ->
    allocated st' TopTransactionContext = (allocated st TopTransactionContext + k)%nat ->
    previous (memory st' vvar) = None ->
    entered nm subtxnid tab st st' vvar k.

(** What a call of [set] that entered [nm] leaves.  When the copy raised,
    the node keeps the type, null flag, identifier and payload it had. *)
Record set_post (txnid : TransactionId) (subtxnid : SubTransactionId)
    (fc : FunctionCallInfo) (nm : Name) (st st' : State) (vvar : pointer) : Prop := {
  post_entered : entered nm subtxnid (resolved txnid st) st st' vvar (payload_chunks fc);
  post_txnid : last_used_txnid st' = txnid;
  post_session : session_tab st' = session_tab st;
  post_allocated : allocated st' TopMemoryContext = allocated st TopMemoryContext;
  post_frame : forall q, q <> vvar -> memory st' q = memory st q;
  post_subxactid :
    subxactid (memory st' vvar) =
      if copy_raises fc then subxactid (memory st vvar) else subtxnid;
  post_oid :
    oid (memory st' vvar) = if copy_raises fc then oid (memory st vvar) else arg_type fc;
  post_isnull :
    isnull (memory st' vvar) =
      if copy_raises fc then isnull (memory st vvar) else arg_isnull fc;
  post_value :
    arg_isnull fc = false ->
    value (memory st' vvar) =
      if copy_raises fc then value (memory st vvar) else arg_datum fc
}.

(** The two ways [set_session] finds its node: the embedded node of a new
    entry, whose link it clears, or a new chunk for a name that is already
    there, whose link it leaves as [palloc] returned it. *)
Inductive session_entered (nm : Name) (tab : HTAB) (st st' : State) (vvar : pointer)
    (k : nat) : Prop :=
| session_entered_new :
    tab !! nm = None ->
    vvar = Embedded SessionTab nm ->
    session_tab st' = Some (<[nm := {| name := nm; variable_value := vvar |}]> tab) ->
    allocated st' TopTransactionContext = allocated st TopTransactionContext ->
    allocated st' TopMemoryContext = (allocated st TopMemoryContext + k)%nat ->
    previous (memory st' vvar) = None ->
    session_entered nm tab st st' vvar k
| session_entered_found var :
    tab !! nm = Some var ->
    vvar = Chunk TopMemoryContext (allocated st TopMemoryContext) ->
    session_tab st' = Some (<[nm := {| name := name var; variable_value := vvar |}]> tab) ->
    allocated st' TopTransactionContext = allocated st TopTransactionContext ->
    allocated st' TopMemoryContext = S (allocated st TopMemoryContext + k) ->
    previous (memory st' vvar) = previous (memory st vvar) ->
    session_entered nm tab st st' vvar k.

Record session_post (fc : FunctionCallInfo) (nm : Name) (st st' : State)
    (vvar : pointer) : Prop := {
  spost_entered :
    session_entered nm (default ∅ (session_tab st)) st st' vvar (payload_chunks fc);
  spost_txnid : last_used_txnid st' = last_used_txnid st;
  spost_current : current_tab st' = current_tab st;
  spost_frame : forall q, q <> vvar -> memory st' q = memory st q;
  spost_subxactid : subxactid (memory st' vvar) = subxactid (memory st vvar);
  spost_oid :
    oid (memory st' vvar) = if copy_raises fc then oid (memory st vvar) else arg_type fc;
  spost_isnull :
    isnull (memory st' vvar) =
      if copy_raises fc then isnull (memory st vvar) else arg_isnull fc;
  spost_value :
    arg_isnull fc = false ->
    value (memory st' vvar) =
      if copy_raises fc then value (memory st vvar) else arg_datum fc
}.

End Vocabulary.

(** The nodes a session variable [n] may have at its head: the node
    embedded in its entry, or a chunk of [TopMemoryContext] that was handed
    out. *)
Definition session_head (bound : nat) (n : Name) (p : pointer) : Prop :=
  p = Embedded SessionTab n \/
  exists a, p = Chunk TopMemoryContext a /\ (a < bound)%nat.

(** What every reachable state has of its session table: heads are session
    nodes and no two names share one. *)
Definition session_invariant (st : State) : Prop :=
  forall tab, session_tab st = Some tab ->
    (forall n var, tab !! n = Some var ->
       session_head (allocated st TopMemoryContext) n (variable_value var)) /\
    (forall n m vn vm, tab !! n = Some vn -> tab !! m = Some vm -> n <> m ->
       variable_value vn <> variable_value vm).

(** Transaction events at which the top-level transaction is over. *)
Definition ends_transaction (event : XactEvent) : bool :=
  match event with
  | XACT_EVENT_ABORT | XACT_EVENT_COMMIT
  | XACT_EVENT_PARALLEL_ABORT | XACT_EVENT_PARALLEL_COMMIT => true
  | _ => false
  end.

(** Settle the [decide (q = p)] tests left by writes through pointers. *)
Ltac pointers :=
  simpl; repeat case_decide; simpl; try done; try congruence.

(** ** Basic facts about chains *)

Lemma chain_head mem p l : chain mem p l -> exists t, l = p :: t.
Proof. destruct 1; eauto. Qed.

Lemma chain_deterministic mem p l1 l2 : chain mem p l1 -> chain mem p l2 -> l1 = l2.
Proof.
  intros H1; revert l2; induction H1 as [p Hp | p q l Hp Hq IH]; intros l2 H2.
  - inversion H2; subst; [done | congruence].
  - inversion H2 as [p' Hp' | p' q' l' Hp' Hq']; subst; [congruence |].
    rewrite Hp in Hp'; injection Hp' as <-. f_equal. by apply IH.
Qed.

Lemma chain_agree mem mem' p l :
  (forall q, q ∈ l -> mem' q = mem q) -> chain mem p l -> chain mem' p l.
Proof.
  intros Hag Hc; induction Hc as [p Hp | p q l Hp Hq IH].
  - apply chain_end. rewrite Hag; [done | set_solver].
  - apply chain_link with q.
    + rewrite Hag; [done | set_solver].
    + apply IH. intros r Hr. apply Hag, elem_of_cons. by right.
Qed.

Lemma descending_agree mem mem' l :
  (forall q, q ∈ l -> mem' q = mem q) -> descending mem l -> descending mem' l.
Proof.
  induction l as [| p [| q t] IH]; simpl; try done.
  intros Hag [Hlt Hd]. split.
  - rewrite !Hag; [done | set_solver | set_solver].
  - apply IH; [| done]. intros r Hr. apply Hag, elem_of_cons. by right.
Qed.

Lemma descending_tail mem p l : descending mem (p :: l) -> descending mem l.
Proof. destruct l; simpl; tauto. Qed.

Lemma walk_chain fuel mem p l : walk fuel mem p = Some l -> chain mem p l.
Proof.
  revert p l; induction fuel as [| fuel IH]; intros p l; simpl; [done |].
  destruct (previous (mem p)) as [q |] eqn:Hp.
  - destruct (walk fuel mem q) as [t |] eqn:Hw; simpl; [| done].
    intros [= <-]. apply chain_link with q; auto.
  - intros [= <-]. by apply chain_end.
Qed.

Lemma chain_walk mem p l fuel :
  chain mem p l -> (length l <= fuel)%nat -> walk fuel mem p = Some l.
Proof.
  intros Hc; revert fuel; induction Hc as [p Hp | p q l Hp Hq IH]; intros fuel Hf.
  - destruct fuel; simpl in *; [lia |]. by rewrite Hp.
  - destruct fuel; simpl in *; [lia |]. rewrite Hp, IH; [done | lia].
Qed.

(** ** The inner loop of the abort callback *)

Lemma unwind_more_fuel fuel fuel' mem xact_id p u :
  unwind fuel mem xact_id p = Some u -> (fuel <= fuel')%nat ->
  unwind fuel' mem xact_id p = Some u.
Proof.
  revert fuel' p; induction fuel as [| fuel IH]; intros fuel' p; simpl; [done |].
  intros Hu Hle. destruct fuel' as [| fuel']; [lia |]. simpl.
  destruct (xact_id <=? subxactid (mem p)); [| done].
  destruct (previous (mem p)); [| done]. apply IH; [done | lia].
Qed.

(** On a chain the loop ends within as many iterations as the chain has
    nodes.  It removes the variable exactly when every node was written at
    [xact_id] or later; otherwise it stops on the first node written
    earlier, whose own chain is the rest of the original one. *)
Lemma unwind_chain mem xact_id p l fuel :
  chain mem p l -> (length l <= fuel)%nat ->
  (Forall (fun q => xact_id <= subxactid (mem q)) l /\
   unwind fuel mem xact_id p = Some Remove) \/
  (exists l1 q l2, l = l1 ++ q :: l2 /\ chain mem q (q :: l2) /\
     Forall (fun r => xact_id <= subxactid (mem r)) l1 /\
     subxactid (mem q) < xact_id /\
     unwind fuel mem xact_id p = Some (Use q)).
Proof.
  intros Hc; revert fuel; induction Hc as [p Hp | p q l Hp Hq IH]; intros fuel Hf.
  - destruct fuel as [| fuel]; simpl in *; [lia |].
    destruct (Z.leb_spec xact_id (subxactid (mem p))) as [Hle | Hlt].
    + left. rewrite Hp. split; [| done]. by repeat constructor.
    + right. exists [], p, []. repeat split; auto. by apply chain_end.
  - destruct fuel as [| fuel]; simpl in *; [lia |].
    destruct (Z.leb_spec xact_id (subxactid (mem p))) as [Hle | Hlt].
    + rewrite Hp.
      destruct (IH fuel ltac:(lia)) as [[Hall Hu] | (l1 & r & l2 & -> & Hr & Hall & Hlt & Hu)].
      * left. split; [by constructor | done].
      * right. exists (p :: l1), r, l2. repeat split; auto.
    + right. exists [], p, l. repeat split; auto. by apply chain_link with q.
Qed.

(** ** The outer loop of the abort callback *)

Section Callback.
Context `{Host}.

Lemma callback_loop_partial fuel mem xact_id (tab m : HTAB) :
  (forall n var, tab !! n = Some var -> name var = n) ->
  m ⊆ tab ->
  match map_fold (fun _ var acc => unwind_variable fuel mem xact_id var acc) (Some tab) m with
  | Some tab' =>
      (forall n var, m !! n = Some var ->
         is_Some (unwind fuel mem xact_id (variable_value var))) /\
      (forall k, tab' !! k =
         match m !! k with
         | Some var => unwound_entry fuel mem xact_id var
         | None => tab !! k
         end)
  | None =>
      exists n var, m !! n = Some var /\
        unwind fuel mem xact_id (variable_value var) = None
  end.
Proof.
  intros Hnames. revert m.
  apply (map_fold_weak_ind (fun (r : option HTAB) (m : HTAB) => m ⊆ tab ->
    match r with
    | Some tab' =>
        (forall n var, m !! n = Some var ->
           is_Some (unwind fuel mem xact_id (variable_value var))) /\
        (forall k, tab' !! k =
           match m !! k with
           | Some var => unwound_entry fuel mem xact_id var
           | None => tab !! k
           end)
    | None =>
        exists n var, m !! n = Some var /\
          unwind fuel mem xact_id (variable_value var) = None
    end)).
  - intros _. split; [intros n var; by rewrite lookup_empty |].
    intros k. by rewrite lookup_empty.
  - intros i x m r Hi IH Hsub.
    assert (Hx : tab !! i = Some x).
    { eapply lookup_weaken; [| exact Hsub]. apply lookup_insert_eq. }
    assert (Hm : m ⊆ tab).
    { etrans; [| exact Hsub]. by apply insert_subseteq. }
    specialize (IH Hm). pose proof (Hnames i x Hx) as Hn.
    destruct r as [tab' |]; simpl.
    2:{ destruct IH as (n & var & Hl & Hu). exists n, var. split; [| done].
        rewrite lookup_insert_ne; [done |]. intros ->. congruence. }
    destruct IH as [Hsome Hl].
    destruct (unwind fuel mem xact_id (variable_value x)) as [u |] eqn:Hu.
    2:{ exists i, x. by rewrite lookup_insert_eq. }
    assert (Hall : forall n var, <[i:=x]> m !! n = Some var ->
              is_Some (unwind fuel mem xact_id (variable_value var))).
    { intros n var. destruct (decide (n = i)) as [-> | Hni].
      - rewrite lookup_insert_eq. intros [= <-]. by rewrite Hu.
      - rewrite lookup_insert_ne by done. apply Hsome. }
    destruct u as [| p].
    + split; [done |]. intros k. rewrite Hn.
      destruct (decide (k = i)) as [-> | Hk].
      * rewrite lookup_delete_eq, lookup_insert_eq. unfold unwound_entry. by rewrite Hu.
      * rewrite lookup_delete_ne, lookup_insert_ne by done. apply Hl.
    + destruct (decide (p = variable_value x)) as [-> | Hp].
      * split; [done |]. intros k.
        destruct (decide (k = i)) as [-> | Hk].
        -- rewrite Hl, Hi, Hx, lookup_insert_eq. unfold unwound_entry. rewrite Hu.
           by destruct x.
        -- rewrite lookup_insert_ne by done. apply Hl.
      * split; [done |]. intros k. rewrite Hn.
        destruct (decide (k = i)) as [-> | Hk].
        -- rewrite !lookup_insert_eq. unfold unwound_entry. by rewrite Hu, Hn.
        -- rewrite !lookup_insert_ne by done. apply Hl.
Qed.

(** With enough fuel for every variable the loop ends and leaves, under
    each name, what the inner loop decided for it. *)
Lemma callback_loop fuel mem xact_id (tab : HTAB) :
  (forall n var, tab !! n = Some var -> name var = n) ->
  (forall n var, tab !! n = Some var ->
     is_Some (unwind fuel mem xact_id (variable_value var))) ->
  exists tab' : HTAB,
    map_fold (fun _ var acc => unwind_variable fuel mem xact_id var acc) (Some tab) tab
      = Some tab' /\
    forall k, tab' !! k = tab !! k ≫= unwound_entry fuel mem xact_id.
Proof.
  intros Hnames Hall.
  pose proof (callback_loop_partial fuel mem xact_id tab tab Hnames) as Hp.
  destruct (map_fold _ _ _) as [tab' |].
  - destruct Hp as [_ Hl]; [done |]. exists tab'. split; [done |].
    intros k. rewrite Hl. by destruct (tab !! k).
  - destruct Hp as (n & var & Hl & Hu); [done |].
    destruct (Hall n var Hl) as [u Hu']. congruence.
Qed.

(** Conversely, when the loop ended it did so for every variable. *)
Lemma callback_loop_result fuel mem xact_id (tab tab' : HTAB) :
  (forall n var, tab !! n = Some var -> name var = n) ->
  map_fold (fun _ var acc => unwind_variable fuel mem xact_id var acc) (Some tab) tab
    = Some tab' ->
  (forall n var, tab !! n = Some var ->
     is_Some (unwind fuel mem xact_id (variable_value var))) /\
  (forall k, tab' !! k = tab !! k ≫= unwound_entry fuel mem xact_id).
Proof.
  intros Hnames Hf.
  pose proof (callback_loop_partial fuel mem xact_id tab tab Hnames) as Hp.
  rewrite Hf in Hp. destruct Hp as [Hall Hl]; [done |]. split; [done |].
  intros k. rewrite Hl. by destruct (tab !! k).
Qed.

End Callback.

(** ** What one call of [set] does *)

Section SetSpec.
Context `{Host}.

Lemma register_callbacks_statics st :
  let st' := register_callbacks st in
  last_used_txnid st' = last_used_txnid st /\ current_tab st' = current_tab st /\
  session_tab st' = session_tab st /\ memory st' = memory st /\
  allocated st' = allocated st.
Proof.
  unfold register_callbacks.
  destruct (transaction_callback_registered st) eqn:Ht;
    destruct (subtransaction_callback_registered _) eqn:Hs; simpl; auto.
Qed.

Lemma new_table_if_needed_statics txnid st :
  (current_tab st = None -> last_used_txnid st <> txnid) ->
  let st' := new_table_if_needed txnid st in
  last_used_txnid st' = txnid /\ current_tab st' = Some (resolved txnid st) /\
  session_tab st' = session_tab st /\ memory st' = memory st /\
  allocated st' = allocated st.
Proof.
  intros Htab. unfold new_table_if_needed, resolved.
  destruct (Z.eqb_spec (last_used_txnid st) txnid) as [Heq | Hne]; simpl; [| done].
  destruct (current_tab st) as [tab |]; [done |]. by destruct Htab.
Qed.

Lemma enter_spec nm subtxnid tab st :
  current_tab st = Some tab ->
  let vvar := (enter nm subtxnid tab st).1 in
  let st' := (enter nm subtxnid tab st).2 in
  entered nm subtxnid tab st st' vvar 0 /\
  last_used_txnid st' = last_used_txnid st /\
  session_tab st' = session_tab st /\
  allocated st' TopMemoryContext = allocated st TopMemoryContext /\
  (forall q, q <> vvar -> memory st' q = memory st q) /\
  (subxactid (memory st' vvar) = subxactid (memory st vvar) /\
   oid (memory st' vvar) = oid (memory st vvar) /\
   isnull (memory st' vvar) = isnull (memory st vvar) /\
   value (memory st' vvar) = value (memory st vvar)).
Proof.
  intros Hct. unfold enter. destruct (tab !! nm) as [var |] eqn:Hl.
  - destruct (Z.ltb_spec (subxactid (memory st (variable_value var))) subtxnid)
      as [Hlt | Hge]; simpl.
    + split; [eapply entered_push; simpl; eauto; pointers; lia |].
      repeat split; try (intros q Hq); pointers.
    + split; [eapply entered_overwrite; simpl; eauto; pointers; lia |].
      repeat split; try (intros q Hq); pointers.
  - simpl. split; [eapply entered_new; simpl; eauto; pointers; lia |].
    repeat split; try (intros q Hq); pointers.
Qed.

(** The payload lines: either [palloc(typlen)] raises and nothing is
    written, or the payload is stored through [vvar], in a chunk of its
    own when it is a copy. *)
Lemma store_value_spec cx vvar (fc : FunctionCallInfo) st :
  match store_value cx vvar fc st with
  | inl e =>
      copy_raises fc = true /\
      e = invalid_memory_alloc_request_size (get_typlen (arg_type fc))
  | inr st' =>
      copy_raises fc = false /\
      (last_used_txnid st' = last_used_txnid st /\ current_tab st' = current_tab st /\
       session_tab st' = session_tab st /\ notices st' = notices st) /\
      allocated st' cx = (allocated st cx + payload_chunks fc)%nat /\
      (forall c, c <> cx -> allocated st' c = allocated st c) /\
      (forall q, q <> vvar -> memory st' q = memory st q) /\
      subxactid (memory st' vvar) = subxactid (memory st vvar) /\
      oid (memory st' vvar) = oid (memory st vvar) /\
      isnull (memory st' vvar) = isnull (memory st vvar) /\
      previous (memory st' vvar) = previous (memory st vvar) /\
      (arg_isnull fc = false -> value (memory st' vvar) = arg_datum fc)
  end.
Proof.
  unfold store_value, copy_raises, payload_chunks, copy_raises, storable,
    PG_DETOAST_DATUM_COPY, palloc_memcpy, palloc.
  destruct (get_typbyval (arg_type fc)), (arg_isnull fc); simpl;
    try destruct (get_typlen (arg_type fc) =? -1); simpl;
    try destruct (AllocSizeIsValid _); simpl;
    repeat split; try (intros q Hq); pointers; lia.
Qed.

(** The writes after the payload: type, null flag and subtransaction id,
    all through [vvar]. *)
Lemma fill_spec vvar subtxnid (fc : FunctionCallInfo) st :
  let st' := poke vvar (set_subxactid subtxnid)
               (poke vvar (set_isnull (arg_isnull fc))
                  (poke vvar (set_oid (arg_type fc)) st)) in
  (last_used_txnid st' = last_used_txnid st /\ current_tab st' = current_tab st /\
   session_tab st' = session_tab st /\ allocated st' = allocated st) /\
  (forall q, q <> vvar -> memory st' q = memory st q) /\
  subxactid (memory st' vvar) = subtxnid /\
  oid (memory st' vvar) = arg_type fc /\
  isnull (memory st' vvar) = arg_isnull fc /\
  previous (memory st' vvar) = previous (memory st vvar) /\
  value (memory st' vvar) = value (memory st vvar).
Proof. simpl. repeat split; try (intros q Hq); pointers. Qed.

Lemma entered_more nm subtxnid tab st st' st'' vvar k k' :
  entered nm subtxnid tab st st' vvar k ->
  current_tab st'' = current_tab st' ->
  allocated st'' TopTransactionContext = (allocated st' TopTransactionContext + k')%nat ->
  previous (memory st'' vvar) = previous (memory st' vvar) ->
  entered nm subtxnid tab st st'' vvar (k + k').
Proof.
  intros [E1 E2 E3 E4 E5 | var E1 E2 E3 E4 E5 E6 | var E1 E2 E3 E4 E5 E6] Hc Ha Hp.
  - apply entered_new; try done; [congruence | lia | congruence].
  - apply entered_push with var; try done; [congruence | lia | congruence].
  - apply entered_overwrite with var; try done; [congruence | lia | congruence].
Qed.

Lemma entered_same nm subtxnid tab st0 st st' vvar k :
  entered nm subtxnid tab st st' vvar k ->
  memory st = memory st0 -> allocated st = allocated st0 ->
  entered nm subtxnid tab st0 st' vvar k.
Proof.
  intros [E1 E2 E3 E4 E5 | var E1 E2 E3 E4 E5 E6 | var E1 E2 E3 E4 E5 E6] Hm Ha;
    rewrite ?Hm, ?Ha in *.
  - by apply entered_new.
  - by apply entered_push with var.
  - by apply entered_overwrite with var.
Qed.

(** A call of [set] with a name and a resolved type, in a state whose
    table is there when [last_used_txnid] says so: the name is entered,
    and the call ends as [outcome] says. *)
Lemma set_spec txnid subtxnid fc nm st :
  arg_name fc = Some nm ->
  arg_type fc <> InvalidOid ->
  (current_tab st = None -> last_used_txnid st <> txnid) ->
  exists vvar st',
    set txnid subtxnid fc st = Some (outcome fc, st') /\
    set_post txnid subtxnid fc nm st st' vvar.
Proof.
  intros Hnm Hty Htab. unfold set. rewrite Hnm.
  destruct (Z.eqb_spec (arg_type fc) InvalidOid) as [| _]; [done |].
  destruct (register_callbacks_statics st) as (Hr1 & Hr2 & Hr3 & Hr4 & Hr5).
  destruct (new_table_if_needed_statics txnid (register_callbacks st))
    as (Hn1 & Hn2 & Hn3 & Hn4 & Hn5).
  { rewrite Hr1, Hr2. exact Htab. }
  set (st1 := new_table_if_needed txnid (register_callbacks st)) in *.
  assert (Hres : resolved txnid (register_callbacks st) = resolved txnid st).
  { unfold resolved. by rewrite Hr1, Hr2. }
  rewrite Hres in Hn2. rewrite Hn2.
  assert (Hm1 : memory st1 = memory st) by (by rewrite Hn4, Hr4).
  assert (Ha1 : allocated st1 = allocated st) by (by rewrite Hn5, Hr5).
  destruct (enter_spec nm subtxnid (resolved txnid st) st1 Hn2)
    as (He & He1 & He2 & He3 & He4 & He5 & He6 & He7 & He8).
  destruct (enter nm subtxnid (resolved txnid st) st1) as [vvar st2];
    cbn [fst snd] in *; cbv beta iota zeta.
  apply entered_same with (st0 := st) in He; [| done | done].
  rewrite Hm1 in He4, He5, He6, He7, He8. rewrite Ha1 in He3.
  pose proof (store_value_spec TopTransactionContext vvar fc st2) as Hsv.
  unfold outcome.
  destruct (store_value TopTransactionContext vvar fc st2) as [e | st3].
  - (* the copy raised *)
    destruct Hsv as [Hcr ->]. rewrite Hcr. exists vvar, st2. split; [done |].
    assert (Hk : payload_chunks fc = 0%nat).
    { unfold payload_chunks. rewrite Hcr. by rewrite !orb_true_r. }
    split; rewrite ?Hcr, ?Hk; try done.
    + congruence.
    + congruence.
  - destruct Hsv as (Hcr & (Hs1 & Hs2 & Hs3 & _) & Hs4 & Hs5 & Hs6 & Hs7 & Hs8 & Hs9
                     & Hs10 & Hs11).
    rewrite Hcr.
    destruct (fill_spec vvar subtxnid fc st3)
      as ((Hf1 & Hf2 & Hf3 & Hf4) & Hf5 & Hf6 & Hf7 & Hf8 & Hf9 & Hf10).
    set (st4 := poke vvar (set_subxactid subtxnid) _) in *.
    exists vvar, st4. split.
    + destruct (arg_isnull fc); [done |]. by rewrite Hf10, Hs11.
    + split; rewrite ?Hcr; try done.
      * change (payload_chunks fc) with (0 + payload_chunks fc)%nat.
        eapply entered_more; [exact He | | |].
        -- by rewrite Hf2, Hs2.
        -- by rewrite Hf4, Hs4.
        -- by rewrite Hf9, Hs10.
      * by rewrite Hf1, Hs1, He1.
      * by rewrite Hf3, Hs3, He2, Hn3.
      * rewrite Hf4, Hs5 by done. by rewrite He3.
      * intros q Hq. by rewrite Hf5, Hs6, He4.
      * intros Hnull. by rewrite Hf10, Hs11.
Qed.

End SetSpec.

(** ** The invariant is kept by every operation *)

Lemma descending_suffix mem l1 l2 : descending mem (l1 ++ l2) -> descending mem l2.
Proof.
  induction l1 as [| p l1 IH]; [done |]. intros Hd. apply IH.
  by apply descending_tail with p.
Qed.

Lemma owned_unique own bound n m p :
  owned own bound n p -> owned own bound m p -> n = m.
Proof.
  intros [-> | (a & -> & _ & <-)] [Hm | (b & Hb & _ & <-)]; congruence.
Qed.

Lemma owned_grow own own' bound bound' n p :
  (bound <= bound')%nat -> (forall a, (a < bound)%nat -> own' a = own a) ->
  owned own bound n p -> owned own' bound' n p.
Proof.
  intros Hle Hown [-> | (a & -> & Ha & <-)]; [by left |].
  right. exists a. repeat split; [lia | by apply Hown].
Qed.

Lemma owned_not_fresh own bound n :
  ~ owned own bound n (Chunk TopTransactionContext bound).
Proof. intros [? | (a & [= <-] & ? & _)]; [done | lia]. Qed.

Lemma good_variable_agree o mem mem' own own' bound bound' n var :
  (forall p, owned own bound n p -> mem' p = mem p) ->
  (bound <= bound')%nat -> (forall a, (a < bound)%nat -> own' a = own a) ->
  good_variable o mem own bound n var -> good_variable o mem' own' bound' n var.
Proof.
  intros Hag Hle Hown (Hn & l & Hc & Hd & Ho). split; [done |]. exists l.
  assert (Hl : forall q, q ∈ l -> mem' q = mem q).
  { intros q Hq. apply Hag. by eapply Forall_forall in Ho. }
  split; [by apply chain_agree with mem |].
  split; [intros Hord; apply descending_agree with mem; auto |].
  eapply Forall_impl; [exact Ho |]. intros p. by apply owned_grow.
Qed.

Lemma good_variable_unordered o mem own bound n var :
  good_variable o mem own bound n var -> good_variable false mem own bound n var.
Proof. intros (Hn & l & Hc & _ & Ho). split; [done |]. by exists l. Qed.

Lemma owned_transactional own bound n p : owned own bound n p -> transactional p.
Proof. by intros [-> | (a & -> & _)]. Qed.

Lemma good_table_agree o mem mem' bound bound' tab :
  (forall p, transactional p -> mem' p = mem p) -> (bound <= bound')%nat ->
  good_table o mem bound tab -> good_table o mem' bound' tab.
Proof.
  intros Hag Hle [own Hgood]. exists own. intros n var Hl.
  eapply good_variable_agree; [| done | done | by apply Hgood].
  intros p Hp. apply Hag. by eapply owned_transactional.
Qed.

Lemma good_table_empty o mem bound : good_table o mem bound ∅.
Proof. exists (fun _ => ""%string). intros n var. by rewrite lookup_empty. Qed.

Lemma good_table_unordered o mem bound tab :
  good_table o mem bound tab -> good_table false mem bound tab.
Proof.
  intros [own Hgood]. exists own. intros n var Hl.
  by eapply good_variable_unordered, Hgood.
Qed.

Section Preservation.
Context `{Host}.

Lemma good_table_entered o nm subtxnid tab st st' vvar k tab' :
  good_table o (memory st) (allocated st TopTransactionContext) tab ->
  entered nm subtxnid tab st st' vvar k ->
  (forall q, q <> vvar -> memory st' q = memory st q) ->
  (o = true -> subxactid (memory st' vvar) = subtxnid) ->
  current_tab st' = Some tab' ->
  good_table o (memory st') (allocated st' TopTransactionContext) tab'.
Proof.
  intros [own Hgood] He Hframe Hsub Htab'.
  destruct He as [E1 E2 E3 E4 E5 | var E1 E2 E3 E4 E5 E6 | var E1 E2 E3 E4 E5 E6];
    rewrite Htab' in *.
  - (* a new entry *)
    injection E3 as ->. exists own. intros n v. rewrite E4.
    destruct (decide (n = nm)) as [-> | Hn].
    + rewrite lookup_insert_eq. intros [= <-]. split; [done |].
      exists [vvar]. split; [by apply chain_end |]. split; [done |].
      constructor; [| done]. left. by rewrite E2.
    + rewrite lookup_insert_ne by done. intros Hl.
      eapply good_variable_agree; [| | done | by apply Hgood]; [| lia].
      intros p Hp. apply Hframe. intros ->. subst vvar.
      destruct Hp as [[= ->] | (a & ? & _)]; done.
  - (* a new node on top of the chain *)
    injection E4 as ->.
    set (bound := allocated st TopTransactionContext) in *.
    exists (fun a => if decide (a = bound) then nm else own a).
    assert (Hown : forall a, (a < bound)%nat ->
              (if decide (a = bound) then nm else own a) = own a).
    { intros a Ha. rewrite decide_False; [done | lia]. }
    assert (Hfresh : forall n p, owned own bound n p -> memory st' p = memory st p).
    { intros n p Hp. apply Hframe. intros ->. subst vvar.
      by apply owned_not_fresh in Hp. }
    intros n v. rewrite E5.
    destruct (decide (n = nm)) as [-> | Hn].
    + rewrite lookup_insert_eq. intros [= <-].
      destruct (Hgood nm var E1) as (Hname & l & Hc & Hd & Ho).
      split; [done |]. exists (vvar :: l).
      assert (Hl : forall q, q ∈ l -> memory st' q = memory st q).
      { intros q Hq. apply (Hfresh nm). by eapply Forall_forall in Ho. }
      split; [| split].
      * apply chain_link with (variable_value var); [done |].
        by apply chain_agree with (memory st).
      * intros Hord. destruct (chain_head _ _ _ Hc) as [t ->]. split.
        -- rewrite (Hsub Hord), Hl; [done | by left].
        -- apply descending_agree with (memory st); auto.
      * constructor.
        -- right. exists bound. repeat split; [done | lia | by rewrite decide_True].
        -- eapply Forall_impl; [exact Ho |]. intros p.
           apply owned_grow; [lia | done].
    + rewrite lookup_insert_ne by done. intros Hl.
      eapply good_variable_agree; [| | exact Hown | by apply Hgood].
      * intros p. apply Hfresh.
      * lia.
  - (* the head node written again *)
    injection E4 as ->. exists own. intros n v Hl. rewrite E5.
    destruct (Hgood nm var E1) as (Hname & l & Hc & Hd & Ho).
    assert (Hhead : owned own (allocated st TopTransactionContext) nm vvar).
    { destruct (chain_head _ _ _ Hc) as [t ->]. rewrite E3.
      by apply Forall_cons_1 in Ho as [? _]. }
    destruct (decide (n = nm)) as [-> | Hn].
    + assert (v = var) as -> by congruence. split; [done |].
      exists [vvar]. rewrite <- E3. split; [by apply chain_end |]. split; [done |].
      constructor; [| done]. eapply owned_grow; [| done | exact Hhead]. lia.
    + eapply good_variable_agree; [| | done | by apply Hgood]; [| lia].
      intros p Hp. apply Hframe. intros ->. destruct Hn.
      by eapply owned_unique.
Qed.

Lemma good_table_unwound o fuel mem bound xact_id (tab tab' : HTAB) :
  good_table o mem bound tab ->
  (forall k, tab' !! k = tab !! k ≫= unwound_entry fuel mem xact_id) ->
  good_table o mem bound tab'.
Proof.
  intros [own Hgood] Hl. exists own. intros n var'. rewrite Hl.
  destruct (tab !! n) as [var |] eqn:Hvar; simpl; [| done].
  unfold unwound_entry.
  destruct (unwind fuel mem xact_id (variable_value var)) as [[| p] |] eqn:Hu; try done.
  intros [= <-].
  destruct (Hgood n var Hvar) as (Hname & l & Hc & Hd & Ho).
  split; [done |]. simpl.
  apply unwind_more_fuel with (fuel' := (fuel `max` length l)%nat) in Hu; [| lia].
  destruct (unwind_chain mem xact_id _ l (fuel `max` length l)%nat Hc ltac:(lia))
    as [[_ Hu'] | (l1 & q & l2 & -> & Hq & _ & _ & Hu')]; [congruence |].
  assert (p = q) as -> by congruence.
  exists (q :: l2). split; [done |]. split.
  - intros Hord. apply descending_suffix with l1. auto.
  - by apply Forall_app in Ho as [_ ?].
Qed.

End Preservation.

(** ** What one call of [set_session] does *)

Section SetSessionSpec.
Context `{Host}.

Lemma session_entered_more nm tab st st' st'' vvar k k' :
  session_entered nm tab st st' vvar k ->
  session_tab st'' = session_tab st' ->
  allocated st'' TopTransactionContext = allocated st' TopTransactionContext ->
  allocated st'' TopMemoryContext = (allocated st' TopMemoryContext + k')%nat ->
  previous (memory st'' vvar) = previous (memory st' vvar) ->
  session_entered nm tab st st'' vvar (k + k').
Proof.
  intros [E1 E2 E3 E4 E5 E6 | var E1 E2 E3 E4 E5 E6] Hc Ha Hb Hp.
  - apply session_entered_new; try done; [congruence | congruence | lia | congruence].
  - apply session_entered_found with var; try done;
      [congruence | congruence | lia | congruence].
Qed.

Lemma set_session_spec fc nm st :
  arg_name fc = Some nm ->
  arg_type fc <> InvalidOid ->
  exists vvar st',
    set_session fc st = (outcome fc, st') /\
    session_post fc nm st st' vvar.
Proof.
  intros Hnm Hty. unfold set_session. rewrite Hnm.
  destruct (Z.eqb_spec (arg_type fc) InvalidOid) as [| _]; [done |].
  cbv zeta.
  set (tab := match session_tab st with Some tab => tab | None => ∅ end).
  match goal with
  | |- context [let '(vvar, st) := ?e in _] => set (found := e)
  end.
  assert (He : session_entered nm tab st found.2 found.1 0 /\
               last_used_txnid found.2 = last_used_txnid st /\
               current_tab found.2 = current_tab st /\
               (forall q, q <> found.1 -> memory found.2 q = memory st q) /\
               subxactid (memory found.2 found.1) = subxactid (memory st found.1) /\
               oid (memory found.2 found.1) = oid (memory st found.1) /\
               isnull (memory found.2 found.1) = isnull (memory st found.1) /\
               value (memory found.2 found.1) = value (memory st found.1)).
  { unfold found. destruct (tab !! nm) as [var |] eqn:Hl; simpl.
    - split; [eapply session_entered_found; simpl; eauto; pointers; lia |].
      repeat split; try (intros q Hq); pointers.
    - split; [eapply session_entered_new; simpl; eauto; pointers; lia |].
      repeat split; try (intros q Hq); pointers. }
  destruct found as [vvar st2]; cbn [fst snd] in He.
  destruct He as (He & He1 & He2 & He3 & He4 & He5 & He6 & He7).
  pose proof (store_value_spec TopMemoryContext vvar fc st2) as Hsv.
  unfold outcome.
  destruct (store_value TopMemoryContext vvar fc st2) as [e | st3].
  - (* the copy raised *)
    destruct Hsv as [Hcr ->]. rewrite Hcr. exists vvar, st2. split; [done |].
    assert (Hk : payload_chunks fc = 0%nat).
    { unfold payload_chunks. rewrite Hcr. by rewrite !orb_true_r. }
    split; rewrite ?Hcr, ?Hk; done.
  - destruct Hsv as (Hcr & (Hs1 & Hs2 & Hs3 & _) & Hs4 & Hs5 & Hs6 & Hs7 & Hs8 & Hs9
                     & Hs10 & Hs11).
    rewrite Hcr. cbv zeta.
    set (st4 := poke vvar (set_isnull (arg_isnull fc)) _).
    assert (Hst4 :
      (last_used_txnid st4 = last_used_txnid st3 /\ current_tab st4 = current_tab st3 /\
       session_tab st4 = session_tab st3 /\ allocated st4 = allocated st3) /\
      (forall q, q <> vvar -> memory st4 q = memory st3 q) /\
      subxactid (memory st4 vvar) = subxactid (memory st3 vvar) /\
      oid (memory st4 vvar) = arg_type fc /\
      isnull (memory st4 vvar) = arg_isnull fc /\
      previous (memory st4 vvar) = previous (memory st3 vvar) /\
      value (memory st4 vvar) = value (memory st3 vvar)).
    { unfold st4. simpl. repeat split; try (intros q Hq); pointers. }
    destruct Hst4 as ((Hf1 & Hf2 & Hf3 & Hf4) & Hf5 & Hf6 & Hf7 & Hf8 & Hf9 & Hf10).
    exists vvar, st4. split.
    + destruct (arg_isnull fc); [done |]. by rewrite Hf10, Hs11.
    + split; rewrite ?Hcr; try done.
      * change (payload_chunks fc) with (0 + payload_chunks fc)%nat.
        eapply session_entered_more; [exact He | | | |].
        -- by rewrite Hf3, Hs3.
        -- rewrite Hf4. by apply Hs5.
        -- by rewrite Hf4, Hs4.
        -- by rewrite Hf9, Hs10.
      * by rewrite Hf1, Hs1, He1.
      * by rewrite Hf2, Hs2, He2.
      * intros q Hq. by rewrite Hf5, Hs6, He3.
      * by rewrite Hf6, Hs7, He4.
      * intros Hnull. by rewrite Hf10, Hs11.
Qed.

End SetSessionSpec.

(** ** Every reachable state satisfies the invariant *)

Section Invariant.
Context `{Host}.

Lemma invariant_initial o mem : invariant o (initial_state mem).
Proof. split; [done |]. intros tab [=]. Qed.

Lemma invariant_unordered o st : invariant o st -> invariant false st.
Proof.
  intros [Hnone Hgood]. split; [done |]. intros tab Htab.
  by eapply good_table_unordered, Hgood.
Qed.

Lemma invariant_resolved o txnid st :
  invariant o st ->
  good_table o (memory st) (allocated st TopTransactionContext) (resolved txnid st).
Proof.
  intros [_ Hgood]. unfold resolved.
  destruct (last_used_txnid st =? txnid); [| apply good_table_empty].
  destruct (current_tab st) as [tab |]; [by apply Hgood | apply good_table_empty].
Qed.

Lemma invariant_table_known o txnid st :
  invariant o st -> txnid <> InvalidTransactionId ->
  current_tab st = None -> last_used_txnid st <> txnid.
Proof. intros [Hnone _] Htx Hct. rewrite (Hnone Hct). congruence. Qed.

Lemma set_pure_on_error txnid subtxnid fc st r st' :
  set txnid subtxnid fc st = Some (r, st') ->
  arg_name fc = None \/ arg_type fc = InvalidOid -> st' = st.
Proof.
  unfold set. intros Hs [Hn | Ht].
  - rewrite Hn in Hs. congruence.
  - destruct (arg_name fc); [| congruence].
    rewrite Ht in Hs. simpl in Hs. congruence.
Qed.

(** Every call of [set] either raises before it writes anything, or
    enters the name and ends as [outcome] says. *)
Lemma set_cases o txnid subtxnid fc st :
  invariant o st -> txnid <> InvalidTransactionId ->
  (exists r, set txnid subtxnid fc st = Some (r, st)) \/
  (exists nm vvar st',
     arg_name fc = Some nm /\ arg_type fc <> InvalidOid /\
     set txnid subtxnid fc st = Some (outcome fc, st') /\
     set_post txnid subtxnid fc nm st st' vvar).
Proof.
  intros Hinv Htx.
  destruct (arg_name fc) as [nm |] eqn:Hnm.
  2:{ left. unfold set. rewrite Hnm. eauto. }
  destruct (decide (arg_type fc = InvalidOid)) as [Hty | Hty].
  { left. unfold set. rewrite Hnm, Hty. simpl. eauto. }
  right.
  destruct (set_spec txnid subtxnid fc nm st Hnm Hty) as (vvar & st' & Hs & Hp).
  { by eapply invariant_table_known. }
  by exists nm, vvar, st'.
Qed.

(** The invariant is kept by [set]; its ordered form is kept when the
    copy does not raise. *)
Lemma set_preserves_invariant o txnid subtxnid fc st r st' :
  invariant o st -> txnid <> InvalidTransactionId ->
  set txnid subtxnid fc st = Some (r, st') ->
  (o = true -> forall e, r = Ereport e -> st' = st) ->
  invariant o st'.
Proof.
  intros Hinv Htx Hs Hfilled.
  destruct (set_cases o txnid subtxnid fc st Hinv Htx)
    as [[r0 Hs0] | (nm & vvar & st0 & Hnm & Hty & Hs0 & Hp)];
    rewrite Hs0 in Hs; injection Hs as <- <-; [done |].
  destruct (copy_raises fc) eqn:Hcr.
  - (* the copy raised *)
    destruct o.
    { unfold outcome in Hfilled. rewrite Hcr in Hfilled.
      by rewrite (Hfilled eq_refl _ eq_refl). }
    destruct Hp. split.
    + intros Hnone. destruct post_entered0; congruence.
    + intros tab' Htab'.
      eapply good_table_entered; eauto using invariant_resolved. done.
  - destruct Hp. split.
    + intros Hnone. destruct post_entered0; congruence.
    + intros tab' Htab'.
      eapply good_table_entered; eauto using invariant_resolved.
      intros _. by rewrite post_subxactid0, Hcr.
Qed.

Lemma get_pure txnid fc st r st' : get txnid fc st = Some (r, st') -> st' = st.
Proof.
  unfold get. destruct (arg_name fc); [| congruence].
  destruct (arg_type fc =? InvalidOid); [congruence |].
  destruct (_ || _); [congruence |].
  destruct (current_tab st) as [tab |]; [| done].
  destruct (tab !! n); congruence.
Qed.

Lemma get_session_pure fc st : (get_session fc st).2 = st.
Proof.
  unfold get_session. destruct (arg_name fc); [| done].
  destruct (arg_type fc =? InvalidOid); [done |].
  destruct (session_tab st) as [tab |]; [| done].
  by destruct (tab !! n).
Qed.

Lemma set_session_cases fc st :
  (exists r, set_session fc st = (r, st)) \/
  (exists nm vvar st',
     arg_name fc = Some nm /\ arg_type fc <> InvalidOid /\
     set_session fc st = (outcome fc, st') /\
     session_post fc nm st st' vvar).
Proof.
  destruct (arg_name fc) as [nm |] eqn:Hnm.
  2:{ left. unfold set_session. rewrite Hnm. eauto. }
  destruct (decide (arg_type fc = InvalidOid)) as [Hty | Hty].
  { left. unfold set_session. rewrite Hnm, Hty. simpl. eauto. }
  right.
  destruct (set_session_spec fc nm st Hnm Hty) as (vvar & st' & Hs & Hp).
  by exists nm, vvar, st'.
Qed.

Lemma session_entered_not_transactional nm tab st st' vvar k :
  session_entered nm tab st st' vvar k -> ~ transactional vvar.
Proof. intros [? -> ? ? ? ? | ? ? -> ? ? ? ?]; simpl; tauto. Qed.

Lemma session_entered_allocated nm tab st st' vvar k :
  session_entered nm tab st st' vvar k ->
  allocated st' TopTransactionContext = allocated st TopTransactionContext.
Proof. by intros [? ? ? Ha ? ? | ? ? ? ? Ha ? ?]. Qed.

Lemma set_session_preserves_invariant o fc st :
  invariant o st -> invariant o (set_session fc st).2.
Proof.
  intros Hinv.
  destruct (set_session_cases fc st)
    as [[r0 Hs0] | (nm & vvar & st0 & Hnm & Hty & Hs0 & Hp)];
    rewrite Hs0; simpl; [done |].
  destruct Hinv as [Hnone Hgood]. destruct Hp. split.
  - rewrite spost_current0, spost_txnid0. exact Hnone.
  - rewrite spost_current0. intros tab Htab.
    rewrite (session_entered_allocated _ _ _ _ _ _ spost_entered0).
    apply good_table_agree with (memory st) (allocated st TopTransactionContext);
      [| done | by apply Hgood].
    intros p Hp. apply spost_frame0. intros ->.
    by eapply session_entered_not_transactional.
Qed.

Lemma good_table_names o mem bound (tab : HTAB) n var :
  good_table o mem bound tab -> tab !! n = Some var -> name var = n.
Proof. intros [own Hgood] Hl. by destruct (Hgood n var Hl). Qed.

(** What an abort event does to a state that has a table. *)
Lemma subtransaction_callback_abort o fuel xact_id parent_xact_id st st' tab :
  invariant o st -> current_tab st = Some tab ->
  subtransaction_callback fuel SUBXACT_EVENT_ABORT_SUB xact_id parent_xact_id st
    = Some st' ->
  exists tab' : HTAB,
    st' = with_current_tab (Some tab') st /\
    (forall n var, tab !! n = Some var ->
       is_Some (unwind fuel (memory st) xact_id (variable_value var))) /\
    (forall k, tab' !! k = tab !! k ≫= unwound_entry fuel (memory st) xact_id).
Proof.
  intros [_ Hgood] Htab. unfold subtransaction_callback. rewrite Htab.
  destruct (map_fold _ _ _) as [tab' |] eqn:Hf; simpl; [| done].
  intros [= <-]. exists tab'. split; [done |].
  apply callback_loop_result; [| done].
  intros n var. by apply good_table_names with o (memory st)
    (allocated st TopTransactionContext), Hgood.
Qed.

Lemma subtransaction_callback_other fuel event xact_id parent_xact_id st :
  event <> SUBXACT_EVENT_ABORT_SUB \/ current_tab st = None ->
  subtransaction_callback fuel event xact_id parent_xact_id st = Some st.
Proof.
  unfold subtransaction_callback. intros [He | Hct].
  - by destruct event.
  - rewrite Hct. by destruct event.
Qed.

Lemma subtransaction_callback_preserves_invariant o fuel event xact_id parent_xact_id
    st st' :
  invariant o st ->
  subtransaction_callback fuel event xact_id parent_xact_id st = Some st' ->
  invariant o st'.
Proof.
  intros Hinv Hcb.
  assert (He : event = SUBXACT_EVENT_ABORT_SUB \/ event <> SUBXACT_EVENT_ABORT_SUB)
    by (destruct event; auto).
  destruct He as [-> | He].
  2:{ rewrite subtransaction_callback_other in Hcb by auto. congruence. }
  destruct (current_tab st) as [tab |] eqn:Htab.
  2:{ rewrite subtransaction_callback_other in Hcb by auto. congruence. }
  destruct (subtransaction_callback_abort _ _ _ _ _ _ _ Hinv Htab Hcb)
    as (tab' & -> & _ & Hl).
  split; simpl; [done |]. intros ? [= <-].
  eapply good_table_unwound; [| exact Hl]. by apply Hinv.
Qed.

Lemma transaction_callback_statics event st :
  let st' := transaction_callback event st in
  last_used_txnid st' = last_used_txnid st /\ current_tab st' = current_tab st /\
  session_tab st' = session_tab st /\ memory st' = memory st /\
  allocated st' = allocated st.
Proof.
  unfold transaction_callback.
  destruct event; simpl; auto;
    destruct (subtransaction_callback_registered st) eqn:Hs; simpl;
    destruct (transaction_callback_registered st) eqn:Ht; simpl; auto;
    destruct (16 <=? PG_MAJORVERSION_NUM); simpl; auto.
Qed.

Lemma transaction_callback_preserves_invariant o event st :
  invariant o st -> invariant o (transaction_callback event st).
Proof.
  intros [Hnone Hgood].
  destruct (transaction_callback_statics event st) as (H1 & H2 & H3 & H4 & H5).
  split.
  - rewrite H1, H2. exact Hnone.
  - rewrite H2, H4, H5. exact Hgood.
Qed.

(** Every reachable state has finite chains of nodes of their own. *)
Lemma reachable_invariant st : reachable st -> invariant false st.
Proof.
  induction 1 as [mem | st txnid subtxnid fc r st' _ IH Htx Hs
                  | st txnid fc r st' _ IH Hg | st fc _ IH | st fc _ IH
                  | st fuel event xact_id parent_xact_id st' _ IH Hcb
                  | st event _ IH].
  - apply invariant_initial.
  - by eapply set_preserves_invariant.
  - by rewrite (get_pure _ _ _ _ _ Hg).
  - by apply set_session_preserves_invariant.
  - by rewrite get_session_pure.
  - by eapply subtransaction_callback_preserves_invariant.
  - by apply transaction_callback_preserves_invariant.
Qed.

(** As long as no [set] raised after it entered its name, the chains are
    also strictly descending. *)
Lemma reachable_filled_invariant st : reachable_filled st -> invariant true st.
Proof.
  induction 1 as [mem | st txnid subtxnid fc r st' _ IH Htx Hs Hf
                  | st txnid fc r st' _ IH Hg | st fc _ IH | st fc _ IH
                  | st fuel event xact_id parent_xact_id st' _ IH Hcb
                  | st event _ IH].
  - apply invariant_initial.
  - eapply set_preserves_invariant; eauto.
  - by rewrite (get_pure _ _ _ _ _ Hg).
  - by apply set_session_preserves_invariant.
  - by rewrite get_session_pure.
  - by eapply subtransaction_callback_preserves_invariant.
  - by apply transaction_callback_preserves_invariant.
Qed.

Lemma reachable_filled_reachable st : reachable_filled st -> reachable st.
Proof.
  induction 1; [ apply reachable_initial | eapply reachable_set; eauto
               | eapply reachable_get; eauto | by apply reachable_set_session
               | by apply reachable_get_session
               | eapply reachable_subtransaction_callback; eauto
               | by apply reachable_transaction_callback ].
Qed.

End Invariant.

(** ** The abort callback returns *)

Section Termination.
Context `{Host}.

Lemma chains_bounded mem (tab : HTAB) :
  (forall n var, tab !! n = Some var -> exists l, chain mem (variable_value var) l) ->
  exists N, forall n var, tab !! n = Some var ->
    exists l, chain mem (variable_value var) l /\ (length l <= N)%nat.
Proof.
  induction tab as [| i x tab Hi IH] using map_ind.
  - intros _. exists 0%nat. intros n var. by rewrite lookup_empty.
  - intros Hall.
    destruct IH as [N HN].
    { intros n var Hl. apply (Hall n var). rewrite lookup_insert_ne; [done |].
      intros ->. congruence. }
    destruct (Hall i x) as [lx Hlx]; [by rewrite lookup_insert_eq |].
    exists (N `max` length lx)%nat. intros n var.
    destruct (decide (n = i)) as [-> | Hn].
    + rewrite lookup_insert_eq. intros [= <-]. exists lx. split; [done | lia].
    + rewrite lookup_insert_ne by done. intros Hl.
      destruct (HN n var Hl) as (l & Hc & Hlen). exists l. split; [done | lia].
Qed.

Lemma unwind_enough_fuel mem xact_id p l fuel :
  chain mem p l -> (length l <= fuel)%nat -> is_Some (unwind fuel mem xact_id p).
Proof.
  intros Hc Hf.
  destruct (unwind_chain mem xact_id p l fuel Hc Hf)
    as [[_ Hu] | (? & ? & ? & _ & _ & _ & _ & Hu)]; rewrite Hu; eauto.
Qed.

(** In a state that satisfies the invariant the callback returns for every
    event, given fuel for the longest chain. *)
Lemma subtransaction_callback_returns o st :
  invariant o st ->
  exists fuel0, forall fuel event xact_id parent_xact_id, (fuel0 <= fuel)%nat ->
    exists st', subtransaction_callback fuel event xact_id parent_xact_id st = Some st'.
Proof.
  intros Hinv. destruct (current_tab st) as [tab |] eqn:Htab.
  2:{ exists 0%nat. intros. exists st. apply subtransaction_callback_other. by right. }
  destruct Hinv as [_ Hgood]. specialize (Hgood tab Htab).
  destruct (chains_bounded (memory st) tab) as [N HN].
  { intros n var Hl. destruct Hgood as [own Hgood].
    destruct (Hgood n var Hl) as (_ & l & Hc & _). by exists l. }
  exists N. intros fuel event xact_id parent_xact_id Hfuel.
  destruct event; try (by eexists; apply subtransaction_callback_other; left).
  unfold subtransaction_callback. rewrite Htab.
  destruct (callback_loop fuel (memory st) xact_id tab) as (tab' & Hf & _).
  - intros n var. by apply good_table_names with o (memory st)
      (allocated st TopTransactionContext).
  - intros n var Hl. destruct (HN n var Hl) as (l & Hc & Hlen).
    apply unwind_enough_fuel with l; [done | lia].
  - rewrite Hf. simpl. eauto.
Qed.

End Termination.

(** * Properties *)

Section Reads.
Context `{Host}.

Lemma get_returns o txnid fc st :
  invariant o st -> exists r, get txnid fc st = Some (r, st).
Proof.
  intros [Hnone _]. unfold get.
  destruct (arg_name fc) as [nm |]; [| eauto].
  destruct (arg_type fc =? InvalidOid); [eauto |].
  destruct (Z.eqb_spec txnid InvalidTransactionId) as [Hi | Hv]; simpl; [eauto |].
  destruct (Z.eqb_spec (last_used_txnid st) txnid) as [He | Hne]; simpl; [| eauto].
  destruct (current_tab st) as [tab |].
  - destruct (tab !! nm); eauto.
  - rewrite Hnone in He by done. congruence.
Qed.

(** C10.  Reads are pure: in every reachable state [get] returns, and
    whatever it and [get_session] return (a stored value, SQL null, the
    default, or one of the errors) the state after the call, with both
    tables and all of memory, is the state before it. *)
Theorem reads_are_pure st txnid fc :
  reachable st ->
  (exists r, get txnid fc st = Some (r, st)) /\
  (get_session fc st).2 = st.
Proof.
  intros Hr. split.
  - by eapply get_returns, reachable_invariant.
  - apply get_session_pure.
Qed.

Lemma get_default txnid fc st nm :
  arg_name fc = Some nm -> arg_type fc <> InvalidOid ->
  txnid = InvalidTransactionId \/ last_used_txnid st <> txnid \/
    (exists tab, current_tab st = Some tab /\ tab !! nm = None) ->
  get txnid fc st = Some (default_value fc, st).
Proof.
  intros Hnm Hty Hcase. unfold get. rewrite Hnm.
  destruct (Z.eqb_spec (arg_type fc) InvalidOid) as [| _]; [done |].
  destruct (Z.eqb_spec txnid InvalidTransactionId) as [Hi | Hv]; simpl; [done |].
  destruct (Z.eqb_spec (last_used_txnid st) txnid) as [He | Hne]; simpl; [| done].
  destruct Hcase as [? | [? | (tab & -> & ->)]]; done.
Qed.

(** C7.  [get] returns the caller's default when no transaction id is
    assigned, when the table belongs to another top-level transaction, or
    when the name is not in the table.  In particular a [get] in a new
    top-level transaction returns the default after a [set] of the same
    name in the previous one, whichever way that one ended. *)
Theorem get_default_and_isolation :
  (forall st txnid fc nm,
     arg_name fc = Some nm -> arg_type fc <> InvalidOid ->
     txnid = InvalidTransactionId \/ last_used_txnid st <> txnid \/
       (exists tab, current_tab st = Some tab /\ tab !! nm = None) ->
     get txnid fc st = Some (default_value fc, st)) /\
  (forall st txnid1 subtxnid fcs x r st1 event txnid2 fcg,
     reachable st -> txnid1 <> InvalidTransactionId ->
     arg_name fcs = Some x -> arg_type fcs <> InvalidOid ->
     set txnid1 subtxnid fcs st = Some (r, st1) ->
     txnid2 <> txnid1 ->
     arg_name fcg = Some x -> arg_type fcg <> InvalidOid ->
     get txnid2 fcg (transaction_callback event st1)
       = Some (default_value fcg, transaction_callback event st1)).
Proof.
  split; [intros; by eapply get_default |].
  intros st txnid1 subtxnid fcs x r st1 event txnid2 fcg Hr Htx Hx Hty Hs Hne Hgx Hgty.
  apply get_default with x; [done | done |]. right; left.
  destruct (transaction_callback_statics event st1) as (-> & _).
  destruct (set_spec txnid1 subtxnid fcs x st Hx Hty) as (vvar & st1' & Hs' & Hp).
  { by eapply invariant_table_known, Htx; apply reachable_invariant. }
  rewrite Hs' in Hs. injection Hs as _ <-. destruct Hp. congruence.
Qed.

(** What a read finds under a name that is in the table. *)
Lemma get_found txnid fc st nm tab var :
  arg_name fc = Some nm -> arg_type fc <> InvalidOid ->
  txnid <> InvalidTransactionId -> last_used_txnid st = txnid ->
  current_tab st = Some tab -> tab !! nm = Some var ->
  get txnid fc st = Some (read (memory st (variable_value var)) (arg_type fc), st).
Proof.
  intros Hnm Hty Htx Hlu Htab Hl. unfold get. rewrite Hnm, Htab, Hl.
  destruct (Z.eqb_spec (arg_type fc) InvalidOid) as [| _]; [done |].
  destruct (Z.eqb_spec txnid InvalidTransactionId) as [| _]; [done |].
  destruct (Z.eqb_spec (last_used_txnid st) txnid) as [_ |]; done.
Qed.

Lemma get_session_found fc st nm tab var :
  arg_name fc = Some nm -> arg_type fc <> InvalidOid ->
  session_tab st = Some tab -> tab !! nm = Some var ->
  get_session fc st = (read (memory st (variable_value var)) (arg_type fc), st).
Proof.
  intros Hnm Hty Htab Hl. unfold get_session. rewrite Hnm, Htab, Hl.
  by destruct (Z.eqb_spec (arg_type fc) InvalidOid) as [| _].
Qed.

Lemma read_mismatch vvar value_type :
  isnull vvar = false -> oid vvar <> value_type ->
  read vvar value_type =
    Ereport {| errmsg := "type mismatch";
               errdetail := Some ("expected " +:+ format_type_be (oid vvar) +:+
                                  ", got " +:+ format_type_be value_type) |}.
Proof.
  intros Hn Ho. unfold read. rewrite Hn.
  by destruct (Z.eqb_spec (oid vvar) value_type).
Qed.

Lemma read_null vvar value_type : isnull vvar = true -> read vvar value_type = ReturnNull.
Proof. intros Hn. unfold read. by rewrite Hn. Qed.

Lemma read_value vvar value_type :
  isnull vvar = false -> oid vvar = value_type -> read vvar value_type = Return (value vvar).
Proof.
  intros Hn Ho. unfold read. rewrite Hn.
  by destruct (Z.eqb_spec (oid vvar) value_type).
Qed.

(** C4, as amended.  For a name in the resolved table whose stored value
    is not SQL null, [get] and [get_session] called with another type
    than the stored one raise "type mismatch" with the detail
    "expected <stored type>, got <requested type>", and leave the state
    alone.  When the stored value is SQL null the null test comes first:
    both return SQL null whatever the requested type. *)
Theorem type_mismatch_unless_null st txnid fc nm tab var :
  arg_name fc = Some nm -> arg_type fc <> InvalidOid ->
  tab !! nm = Some var ->
  oid (memory st (variable_value var)) <> arg_type fc ->
  let stored := memory st (variable_value var) in
  let mismatch :=
    Ereport {| errmsg := "type mismatch";
               errdetail := Some ("expected " +:+ format_type_be (oid stored) +:+
                                  ", got " +:+ format_type_be (arg_type fc)) |} in
  (txnid <> InvalidTransactionId -> last_used_txnid st = txnid ->
   current_tab st = Some tab ->
   get txnid fc st = Some (if isnull stored then ReturnNull else mismatch, st)) /\
  (session_tab st = Some tab ->
   get_session fc st = (if isnull stored then ReturnNull else mismatch, st)).
Proof.
  intros Hnm Hty Hl Ho stored mismatch. split.
  - intros Htx Hlu Htab. rewrite (get_found txnid fc st nm tab var) by done.
    fold stored. destruct (isnull stored) eqn:Hn.
    + by rewrite read_null.
    + by rewrite read_mismatch.
  - intros Htab. rewrite (get_session_found fc st nm tab var) by done.
    fold stored. destruct (isnull stored) eqn:Hn.
    + by rewrite read_null.
    + by rewrite read_mismatch.
Qed.

End Reads.

Section Writes.
Context `{Host}.

Lemma copy_raises_false fc :
  arg_isnull fc = true \/ storable (arg_type fc) = true -> copy_raises fc = false.
Proof. unfold copy_raises. intros [-> | ->]; [done | by rewrite andb_false_r]. Qed.

(** What a call that can store its payload leaves in its node. *)
Lemma set_stores txnid subtxnid fc nm st :
  arg_name fc = Some nm -> arg_type fc <> InvalidOid ->
  copy_raises fc = false ->
  (current_tab st = None -> last_used_txnid st <> txnid) ->
  exists vvar st',
    set txnid subtxnid fc st =
      Some (if arg_isnull fc then ReturnNull else Return (arg_datum fc), st') /\
    set_post txnid subtxnid fc nm st st' vvar /\
    subxactid (memory st' vvar) = subtxnid /\
    oid (memory st' vvar) = arg_type fc /\
    isnull (memory st' vvar) = arg_isnull fc /\
    (arg_isnull fc = false -> value (memory st' vvar) = arg_datum fc).
Proof.
  intros Hnm Hty Hcr Htab.
  destruct (set_spec txnid subtxnid fc nm st Hnm Hty Htab) as (vvar & st' & Hs & Hp).
  unfold outcome in Hs. rewrite Hcr in Hs. exists vvar, st'.
  split; [exact Hs |]. split; [exact Hp |].
  destruct Hp as [_ _ _ _ _ Hsub Hoid Hnull Hval]. rewrite Hcr in *. by repeat split.
Qed.

Lemma set_session_stores fc nm st :
  arg_name fc = Some nm -> arg_type fc <> InvalidOid ->
  copy_raises fc = false ->
  exists vvar st',
    set_session fc st =
      (if arg_isnull fc then ReturnNull else Return (arg_datum fc), st') /\
    session_post fc nm st st' vvar /\
    oid (memory st' vvar) = arg_type fc /\
    isnull (memory st' vvar) = arg_isnull fc /\
    (arg_isnull fc = false -> value (memory st' vvar) = arg_datum fc).
Proof.
  intros Hnm Hty Hcr.
  destruct (set_session_spec fc nm st Hnm Hty) as (vvar & st' & Hs & Hp).
  unfold outcome in Hs. rewrite Hcr in Hs. exists vvar, st'.
  split; [exact Hs |]. split; [exact Hp |].
  destruct Hp as [_ _ _ _ _ Hoid Hnull Hval]. rewrite Hcr in *. by repeat split.
Qed.

(** After [set], the name is in the table of the running transaction and
    its entry points to the node of the call. *)
Lemma set_then_lookup txnid subtxnid fc nm st st' vvar :
  set_post txnid subtxnid fc nm st st' vvar ->
  exists tab' var', current_tab st' = Some tab' /\ tab' !! nm = Some var' /\
                    variable_value var' = vvar.
Proof.
  intros [He _ _ _ _ _ _ _ _].
  destruct He as [E1 E2 E3 E4 E5 | var E1 E2 E3 E4 E5 E6 | var E1 E2 E3 E4 E5 E6].
  - eexists _, _. split; [exact E3 |]. by rewrite lookup_insert_eq.
  - eexists _, _. split; [exact E4 |]. by rewrite lookup_insert_eq.
  - exists (resolved txnid st), var. by rewrite E3.
Qed.

Lemma set_session_then_lookup fc nm st st' vvar :
  session_post fc nm st st' vvar ->
  exists tab' var', session_tab st' = Some tab' /\ tab' !! nm = Some var' /\
                    variable_value var' = vvar.
Proof.
  intros [He _ _ _ _ _ _ _].
  destruct He as [E1 E2 E3 E4 E5 E6 | var E1 E2 E3 E4 E5 E6].
  - eexists _, _. split; [exact E3 |]. by rewrite lookup_insert_eq.
  - eexists _, _. split; [exact E3 |]. by rewrite lookup_insert_eq.
Qed.

Lemma read_stored vvar (fc fcg : FunctionCallInfo) :
  oid vvar = arg_type fc -> isnull vvar = arg_isnull fc ->
  (arg_isnull fc = false -> value vvar = arg_datum fc) ->
  read vvar (arg_type fcg) =
    if arg_isnull fc then ReturnNull
    else if arg_type fc =? arg_type fcg then Return (arg_datum fc)
    else Ereport (type_mismatch (arg_type fc) (arg_type fcg)).
Proof.
  intros Hoid Hnull Hval. unfold read. rewrite Hnull, Hoid.
  destruct (arg_isnull fc); [done |].
  destruct (arg_type fc =? arg_type fcg); simpl; [| done]. by rewrite Hval.
Qed.

(** C9, as amended.  With a name, a type that is resolved at the call
    site and a value that is SQL null or of a type the payload lines can
    store (passed by value, a varlena, or of a length [palloc] accepts),
    [set] and [set_session] return the value they were given, or SQL null
    when given SQL null, and the name is recorded with that value and its
    type: a later [get] in the same top-level transaction, respectively a
    later [get_session], returns SQL null when SQL null was stored
    (the default of the call is not used), the stored value when it asks
    for the stored type, and "type mismatch" otherwise. *)
Theorem set_returns_what_it_stores st txnid subtxnid fc nm :
  reachable st -> txnid <> InvalidTransactionId ->
  arg_name fc = Some nm -> arg_type fc <> InvalidOid ->
  arg_isnull fc = true \/ storable (arg_type fc) = true ->
  let returned := if arg_isnull fc then ReturnNull else Return (arg_datum fc) in
  let read_back (fcg : FunctionCallInfo) :=
    if arg_isnull fc then ReturnNull
    else if arg_type fc =? arg_type fcg then Return (arg_datum fc)
    else Ereport (type_mismatch (arg_type fc) (arg_type fcg)) in
  (exists st',
     set txnid subtxnid fc st = Some (returned, st') /\
     forall fcg, arg_name fcg = Some nm -> arg_type fcg <> InvalidOid ->
       get txnid fcg st' = Some (read_back fcg, st')) /\
  (exists st',
     set_session fc st = (returned, st') /\
     forall fcg, arg_name fcg = Some nm -> arg_type fcg <> InvalidOid ->
       get_session fcg st' = (read_back fcg, st')).
Proof.
  intros Hr Htx Hnm Hty Hst returned read_back.
  pose proof (copy_raises_false fc Hst) as Hcr. split.
  - destruct (set_stores txnid subtxnid fc nm st Hnm Hty Hcr)
      as (vvar & st' & Hs & Hp & _ & Hoid & Hnull & Hval).
    { by eapply invariant_table_known, Htx; apply reachable_invariant. }
    exists st'. split; [exact Hs |]. intros fcg Hgn Hgt.
    destruct (set_then_lookup _ _ _ _ _ _ _ Hp) as (tab' & var' & Htab & Hl & Hv).
    rewrite (get_found txnid fcg st' nm tab' var') by (done || by destruct Hp).
    rewrite Hv. by rewrite (read_stored _ fc fcg).
  - destruct (set_session_stores fc nm st Hnm Hty Hcr)
      as (vvar & st' & Hs & Hp & Hoid & Hnull & Hval).
    exists st'. split; [exact Hs |]. intros fcg Hgn Hgt.
    destruct (set_session_then_lookup _ _ _ _ _ Hp) as (tab' & var' & Htab & Hl & Hv).
    rewrite (get_session_found fcg st' nm tab' var') by done.
    rewrite Hv. by rewrite (read_stored _ fc fcg).
Qed.

(** X17.  As long as no [set] raised after it entered its name, whatever
    subtransaction ids the writes came with, the chain of every variable
    of the transactional table is finite and the ids strictly decrease
    from the head along [previous]. *)
Theorem filled_chains_strictly_decrease st tab n var :
  reachable_filled st -> current_tab st = Some tab -> tab !! n = Some var ->
  exists l, chain (memory st) (variable_value var) l /\ descending (memory st) l.
Proof.
  intros Hr Htab Hl.
  destruct (reachable_filled_invariant st Hr) as [_ Hgood].
  destruct (Hgood tab Htab) as [own Hown].
  destruct (Hown n var Hl) as (_ & l & Hc & Hd & _). exists l. auto.
Qed.


End Writes.

Section Rollback.
Context `{Host}.

(** The head of a variable is never a chunk that is still to be handed
    out. *)
Lemma head_not_fresh o st tab n var a :
  invariant o st -> current_tab st = Some tab -> tab !! n = Some var ->
  (allocated st TopTransactionContext <= a)%nat ->
  variable_value var <> Chunk TopTransactionContext a.
Proof.
  intros [_ Hgood] Htab Hl Ha Heq.
  destruct (Hgood tab Htab) as [own Hown].
  destruct (Hown n var Hl) as (_ & l & Hc & _ & Ho).
  destruct (chain_head _ _ _ Hc) as [t ->].
  apply Forall_cons_1 in Ho as [[Ho | (b & Hb & Hlt & _)] _]; [congruence |].
  rewrite Heq in Hb. injection Hb as <-. lia.
Qed.

Lemma resolved_current txnid st tab :
  last_used_txnid st = txnid -> current_tab st = Some tab -> resolved txnid st = tab.
Proof. intros Hlu Htab. unfold resolved. by rewrite Hlu, Z.eqb_refl, Htab. Qed.

(** The first [set] of a name in the running transaction leaves a chain
    of one node under the name. *)
Lemma set_first st txnid subtxnid x ty v :
  reachable st -> txnid <> InvalidTransactionId -> ty <> InvalidOid ->
  storable ty = true ->
  resolved txnid st !! x = None ->
  exists st1 tab1 var1,
    set txnid subtxnid (call x ty v) st = Some (Return v, st1) /\
    reachable st1 /\ last_used_txnid st1 = txnid /\
    current_tab st1 = Some tab1 /\ tab1 !! x = Some var1 /\
    memory st1 (variable_value var1) =
      {| isnull := false; oid := ty; subxactid := subtxnid; value := v;
         previous := None |}.
Proof.
  intros Hr Htx Hty Hst Hnew.
  destruct (set_stores txnid subtxnid (call x ty v) x st eq_refl Hty)
    as (p1 & st1 & Hs1 & Hp1 & Hsub1 & Hoid1 & Hnull1 & Hval1).
  { apply copy_raises_false. by right. }
  { by eapply invariant_table_known, Htx; apply reachable_invariant. }
  simpl in Hs1.
  destruct (set_then_lookup _ _ _ _ _ _ _ Hp1) as (tab1 & var1 & Htab1 & Hl1 & Hv1).
  exists st1, tab1, var1.
  split; [done |]. split; [exact (reachable_set st txnid _ _ _ st1 Hr Htx Hs1) |].
  assert (Hprev1 : previous (memory st1 p1) = None).
  { destruct Hp1 as [He]. destruct He as [| w E1 E2 | w E1 E2]; try done; congruence. }
  destruct Hp1 as [_ Hlu1 _ _ _ _ _ _ _]. simpl in *.
  specialize (Hval1 eq_refl). repeat split; try done.
  rewrite Hv1. destruct (memory st1 p1); simpl in *. congruence.
Qed.

(** [set] on a name whose head was written in an older subtransaction
    puts a new chunk on top of the chain and leaves the rest alone. *)
Lemma set_pushes st txnid subtxnid fc x tab var :
  reachable st -> txnid <> InvalidTransactionId ->
  arg_name fc = Some x -> arg_type fc <> InvalidOid -> arg_isnull fc = false ->
  storable (arg_type fc) = true ->
  last_used_txnid st = txnid -> current_tab st = Some tab -> tab !! x = Some var ->
  subxactid (memory st (variable_value var)) < subtxnid ->
  let c := Chunk TopTransactionContext (allocated st TopTransactionContext) in
  exists st' tab',
    set txnid subtxnid fc st = Some (Return (arg_datum fc), st') /\
    last_used_txnid st' = txnid /\ current_tab st' = Some tab' /\
    tab' !! x = Some {| name := name var; variable_value := c |} /\
    (S (allocated st TopTransactionContext) <= allocated st' TopTransactionContext)%nat /\
    (forall q, q <> c -> memory st' q = memory st q) /\
    variable_value var <> c /\
    previous (memory st' c) = Some (variable_value var) /\
    subxactid (memory st' c) = subtxnid /\
    oid (memory st' c) = arg_type fc /\ isnull (memory st' c) = false /\
    value (memory st' c) = arg_datum fc.
Proof.
  intros Hr Htx Hnm Hty Hnull Hst Hlu Htab Hl Hlt c.
  pose proof (reachable_invariant st Hr) as Hinv.
  destruct (set_stores txnid subtxnid fc x st Hnm Hty)
    as (vvar & st' & Hs & Hp & Hsub & Hoid & Hnl & Hval).
  { apply copy_raises_false. by right. }
  { by eapply invariant_table_known. }
  rewrite Hnull in Hs, Hnl. specialize (Hval Hnull). destruct Hp.
  rewrite (resolved_current txnid st tab Hlu Htab) in post_entered0.
  destruct post_entered0 as [E1 | v E1 E2 E3 E4 E5 E6 | v E1 E2 E3 E4 E5 E6];
    [congruence | | ]; assert (v = var) as -> by congruence; [| lia].
  exists st', (<[x := {| name := name var; variable_value := vvar |}]> tab).
  subst vvar. fold c in post_frame0, Hsub, Hoid, Hnl, Hval, E4, E6 |- *.
  repeat split; try done.
  - by rewrite lookup_insert_eq.
  - lia.
  - by eapply head_not_fresh.
Qed.

(** C1.  Take a name that has no value yet in the running transaction, a
    type whose values can be stored, and three writes of the name in
    subtransactions [S1 < S2 < S3].  The single event "abort of [S2]" is
    enough (none is needed for [S3]): the callback returns, a [get] of
    the name then returns the first value, and the chain of the name is
    one node long. *)
Theorem multi_level_cascade st txnid S1 S2 S3 x ty v1 v2 v3 parent_xact_id fcg :
  reachable st -> txnid <> InvalidTransactionId -> ty <> InvalidOid ->
  storable ty = true ->
  S1 < S2 -> S2 < S3 ->
  resolved txnid st !! x = None ->
  arg_name fcg = Some x -> arg_type fcg = ty ->
  exists st1 st2 st3,
    set txnid S1 (call x ty v1) st = Some (Return v1, st1) /\
    set txnid S2 (call x ty v2) st1 = Some (Return v2, st2) /\
    set txnid S3 (call x ty v3) st2 = Some (Return v3, st3) /\
    exists fuel0, forall fuel, (fuel0 <= fuel)%nat ->
      exists st4 tab var,
        subtransaction_callback fuel SUBXACT_EVENT_ABORT_SUB S2 parent_xact_id st3
          = Some st4 /\
        get txnid fcg st4 = Some (Return v1, st4) /\
        current_tab st4 = Some tab /\ tab !! x = Some var /\
        chain (memory st4) (variable_value var) [variable_value var].
Proof.
  intros Hr Htx Hty Hst H12 H23 Hnew Hgn Hgt.
  (* the first write *)
  destruct (set_first st txnid S1 x ty v1 Hr Htx Hty Hst Hnew)
    as (st1 & tab1 & var1 & Hs1 & Hr1 & Hlu1 & Htab1 & Hl1 & Hmem1).
  set (p1 := variable_value var1) in *.
  (* the second write *)
  destruct (set_pushes st1 txnid S2 (call x ty v2) x tab1 var1)
    as (st2 & tab2 & Hs2 & Hlu2 & Htab2 & Hl2 & Hal2 & Hfr2 & Hne2 & Hprev2 & Hsub2 & _);
    try done.
  { fold p1. rewrite Hmem1. simpl. lia. }
  set (p2 := Chunk TopTransactionContext (allocated st1 TopTransactionContext)) in *.
  simpl in Hs2.
  assert (Hr2 : reachable st2) by exact (reachable_set st1 txnid _ _ _ st2 Hr1 Htx Hs2).
  (* the third write *)
  destruct (set_pushes st2 txnid S3 (call x ty v3) x tab2 _ Hr2 Htx eq_refl Hty eq_refl
              Hst Hlu2 Htab2 Hl2)
    as (st3 & tab3 & Hs3 & Hlu3 & Htab3 & Hl3 & Hal3 & Hfr3 & Hne3 & Hprev3 & Hsub3 & _).
  { simpl. rewrite Hsub2. lia. }
  set (p3 := Chunk TopTransactionContext (allocated st2 TopTransactionContext)) in *.
  simpl in Hs3, Hl3, Hne3, Hprev3.
  assert (Hr3 : reachable st3) by exact (reachable_set st2 txnid _ _ _ st3 Hr2 Htx Hs3).
  exists st1, st2, st3. repeat split; try done.
  (* memory after the three writes *)
  assert (Hp13 : p1 <> p3).
  { apply (head_not_fresh false st1 tab1 x var1 (allocated st2 TopTransactionContext));
      [by apply reachable_invariant | done | done | lia]. }
  fold p1 in Hne2, Hprev2.
  assert (Hm1 : memory st3 p1 = memory st1 p1) by (rewrite Hfr3, Hfr2; done).
  assert (Hm2 : memory st3 p2 = memory st2 p2) by (by rewrite Hfr3).
  assert (Hu : unwind 3 (memory st3) S2 p3 = Some (Use p1)).
  { simpl. rewrite Hsub3, Hprev3, Hm2, Hsub2, Hprev2, Hm1, Hmem1. simpl.
    destruct (Z.leb_spec S2 S3); [| lia]. rewrite Z.leb_refl.
    destruct (Z.leb_spec S2 S1); [lia | done]. }
  (* the abort event *)
  destruct (subtransaction_callback_returns false st3 (reachable_invariant st3 Hr3))
    as [fuel0 Hret].
  exists (fuel0 `max` 3)%nat. intros fuel Hfuel.
  destruct (Hret fuel SUBXACT_EVENT_ABORT_SUB S2 parent_xact_id ltac:(lia)) as [st4 Hcb].
  destruct (subtransaction_callback_abort _ _ _ _ _ _ _ (reachable_invariant st3 Hr3)
              Htab3 Hcb)
    as (tab4 & -> & _ & Hl4).
  exists (with_current_tab (Some tab4) st3), tab4,
    {| name := name var1; variable_value := p1 |}.
  assert (Hx4 : tab4 !! x = Some {| name := name var1; variable_value := p1 |}).
  { rewrite Hl4, Hl3. simpl. unfold unwound_entry. simpl.
    by rewrite (unwind_more_fuel 3 fuel _ _ _ _ Hu) by lia. }
  split; [done |]. split; [| split; [done | split; [done |]]].
  - rewrite (get_found txnid fcg _ x tab4 _ Hgn) by (done || congruence).
    simpl. rewrite Hm1, Hmem1. rewrite read_value; simpl; congruence.
  - simpl. apply chain_end. by rewrite Hm1, Hmem1.
Qed.

(** C3.  A variable all of whose chain was written in subtransaction
    [xact_id] or later is gone from the table after the abort of
    [xact_id], and a [get] of its name returns the default it is called
    with. *)
Theorem full_invalidation st tab x var l xact_id parent_xact_id :
  reachable st -> current_tab st = Some tab -> tab !! x = Some var ->
  chain (memory st) (variable_value var) l ->
  Forall (fun p => xact_id <= subxactid (memory st p)) l ->
  exists fuel0, forall fuel, (fuel0 <= fuel)%nat ->
    exists st' tab',
      subtransaction_callback fuel SUBXACT_EVENT_ABORT_SUB xact_id parent_xact_id st
        = Some st' /\
      current_tab st' = Some tab' /\ tab' !! x = None /\
      forall txnid fc, arg_name fc = Some x -> arg_type fc <> InvalidOid ->
        get txnid fc st' = Some (default_value fc, st').
Proof.
  intros Hr Htab Hl Hc Hall.
  pose proof (reachable_invariant st Hr) as Hinv.
  destruct (subtransaction_callback_returns false st Hinv) as [fuel0 Hret].
  exists (fuel0 `max` length l)%nat. intros fuel Hfuel.
  destruct (Hret fuel SUBXACT_EVENT_ABORT_SUB xact_id parent_xact_id ltac:(lia)) as [st' Hcb].
  destruct (subtransaction_callback_abort _ _ _ _ _ _ _ Hinv Htab Hcb)
    as (tab' & -> & _ & Hl').
  assert (Hx : tab' !! x = None).
  { rewrite Hl', Hl. simpl. unfold unwound_entry.
    destruct (unwind_chain (memory st) xact_id _ l fuel Hc ltac:(lia))
      as [[_ ->] | (l1 & q & l2 & -> & _ & _ & Hq & _)]; [done |].
    apply Forall_app in Hall as [_ Hall]. apply Forall_cons_1 in Hall as [Hq' _]. lia. }
  exists (with_current_tab (Some tab') st), tab'.
  repeat split; try done.
  intros txnid fc Hnm Hty. apply get_default with x; [done | done |].
  right; right. by exists tab'.
Qed.

End Rollback.

Section Session.
Context `{Host}.

(** The callback writes [current_tab] and nothing else. *)
Lemma subtransaction_callback_frame fuel event xact_id parent_xact_id st st' :
  subtransaction_callback fuel event xact_id parent_xact_id st = Some st' ->
  session_tab st' = session_tab st /\ memory st' = memory st /\
  allocated st' = allocated st /\ last_used_txnid st' = last_used_txnid st.
Proof.
  unfold subtransaction_callback.
  destruct event; try (by intros [= <-]).
  destruct (current_tab st) as [tab |]; [| by intros [= <-]].
  destruct (map_fold _ _ _) as [tab' |]; simpl; [| done].
  by intros [= <-].
Qed.

Lemma get_session_depends st st' fc :
  session_tab st' = session_tab st -> memory st' = memory st ->
  get_session fc st' = ((get_session fc st).1, st').
Proof.
  intros Htab Hmem. unfold get_session. rewrite Htab, Hmem.
  destruct (arg_name fc) as [nm |]; [| done].
  destruct (arg_type fc =? InvalidOid); [done |].
  destruct (session_tab st) as [tab |]; [| done].
  by destruct (tab !! nm).
Qed.

(** C8.  A subtransaction event, of any kind and for any subtransaction,
    is handled (the callback returns) without a write to the session
    table or to any node: every [get_session] after it returns what it
    would have returned before it, so a session variable keeps the value
    it was last given. *)
Theorem session_bypass st event xact_id parent_xact_id :
  reachable st ->
  exists fuel0, forall fuel, (fuel0 <= fuel)%nat ->
    exists st',
      subtransaction_callback fuel event xact_id parent_xact_id st = Some st' /\
      session_tab st' = session_tab st /\
      memory st' = memory st /\
      forall fc, get_session fc st' = ((get_session fc st).1, st').
Proof.
  intros Hr.
  destruct (subtransaction_callback_returns false st (reachable_invariant st Hr))
    as [fuel0 Hret].
  exists fuel0. intros fuel Hfuel.
  destruct (Hret fuel event xact_id parent_xact_id Hfuel) as [st' Hcb].
  destruct (subtransaction_callback_frame _ _ _ _ _ _ Hcb) as (Hs & Hm & _).
  exists st'. repeat split; try done.
  intros fc. by apply get_session_depends.
Qed.

End Session.

Section Further.
Context `{Host}.

(** X2.  Single-level rollback: the first write of a name in [S1], a
    write in the nested [S2], the abort of [S2]; [get] returns the first
    value. *)
Theorem single_level_rollback st txnid S1 S2 x ty v1 v2 parent_xact_id fcg :
  reachable st -> txnid <> InvalidTransactionId -> ty <> InvalidOid ->
  storable ty = true ->
  S1 < S2 ->
  resolved txnid st !! x = None ->
  arg_name fcg = Some x -> arg_type fcg = ty ->
  exists st1 st2,
    set txnid S1 (call x ty v1) st = Some (Return v1, st1) /\
    set txnid S2 (call x ty v2) st1 = Some (Return v2, st2) /\
    get txnid fcg st2 = Some (Return v2, st2) /\
    exists fuel0, forall fuel, (fuel0 <= fuel)%nat ->
      exists st3,
        subtransaction_callback fuel SUBXACT_EVENT_ABORT_SUB S2 parent_xact_id st2
          = Some st3 /\
        get txnid fcg st3 = Some (Return v1, st3).
Proof.
  intros Hr Htx Hty Hst H12 Hnew Hgn Hgt.
  destruct (set_first st txnid S1 x ty v1 Hr Htx Hty Hst Hnew)
    as (st1 & tab1 & var1 & Hs1 & Hr1 & Hlu1 & Htab1 & Hl1 & Hm1).
  destruct (set_pushes st1 txnid S2 (call x ty v2) x tab1 var1)
    as (st2 & tab2 & Hs2 & Hlu2 & Htab2 & Hl2 & Hal2 & Hfr2 & Hne2 & Hprev2 & Hsub2
        & Hoid2 & Hnull2 & Hval2);
    try done.
  { rewrite Hm1. simpl. lia. }
  set (p2 := Chunk TopTransactionContext (allocated st1 TopTransactionContext)) in *.
  simpl in Hs2, Hoid2, Hval2.
  assert (Hr2 : reachable st2) by exact (reachable_set st1 txnid _ _ _ st2 Hr1 Htx Hs2).
  exists st1, st2. split; [done |]. split; [done |]. split.
  { rewrite (get_found txnid fcg st2 x tab2 _ Hgn) by (done || congruence).
    simpl. rewrite read_value; congruence. }
  assert (Hu : unwind 2 (memory st2) S2 p2 = Some (Use (variable_value var1))).
  { simpl. rewrite Hsub2, Hprev2, Z.leb_refl, Hfr2, Hm1 by done. simpl.
    destruct (Z.leb_spec S2 S1); [lia | done]. }
  destruct (subtransaction_callback_returns false st2 (reachable_invariant st2 Hr2))
    as [fuel0 Hret].
  exists (fuel0 `max` 2)%nat. intros fuel Hfuel.
  destruct (Hret fuel SUBXACT_EVENT_ABORT_SUB S2 parent_xact_id ltac:(lia)) as [st3 Hcb].
  destruct (subtransaction_callback_abort _ _ _ _ _ _ _ (reachable_invariant st2 Hr2)
              Htab2 Hcb)
    as (tab3 & -> & _ & Hl3).
  eexists. split; [done |].
  assert (Hx3 : tab3 !! x = Some {| name := name var1; variable_value := variable_value var1 |}).
  { rewrite Hl3, Hl2. simpl. unfold unwound_entry. simpl.
    by rewrite (unwind_more_fuel 2 fuel _ _ _ _ Hu) by lia. }
  rewrite (get_found txnid fcg _ x tab3 _ Hgn) by (done || congruence).
  simpl. rewrite Hfr2, Hm1 by done. rewrite read_value; simpl; congruence.
Qed.

(** X3.  Round trip: after [set] of a non-null value of a type that can
    be stored, [get] of the name in the same top-level transaction with
    the same type returns the value; likewise [set_session] and
    [get_session]. *)
Theorem round_trip st txnid subtxnid x ty v fcg :
  reachable st -> txnid <> InvalidTransactionId -> ty <> InvalidOid ->
  storable ty = true ->
  arg_name fcg = Some x -> arg_type fcg = ty ->
  (exists st',
     set txnid subtxnid (call x ty v) st = Some (Return v, st') /\
     get txnid fcg st' = Some (Return v, st')) /\
  (exists st',
     set_session (call x ty v) st = (Return v, st') /\
     get_session fcg st' = (Return v, st')).
Proof.
  intros Hr Htx Hty Hst Hgn Hgt.
  assert (Hcr : copy_raises (call x ty v) = false)
    by (apply copy_raises_false; by right).
  split.
  - destruct (set_stores txnid subtxnid (call x ty v) x st eq_refl Hty Hcr)
      as (p & st' & Hs & Hp & _ & Hoid & Hnull & Hval).
    { by eapply invariant_table_known, Htx; apply reachable_invariant. }
    exists st'. split; [exact Hs |].
    destruct (set_then_lookup _ _ _ _ _ _ _ Hp) as (tab' & var' & Htab & Hl & Hv).
    destruct Hp as [_ Hlu _ _ _ _ _ _ _]. simpl in *.
    rewrite (get_found txnid fcg st' x tab' var' Hgn) by (done || congruence).
    rewrite Hv, read_value; try congruence. by rewrite Hval.
  - destruct (set_session_stores (call x ty v) x st eq_refl Hty Hcr)
      as (p & st' & Hs & Hp & Hoid & Hnull & Hval).
    exists st'. split; [exact Hs |].
    destruct (set_session_then_lookup _ _ _ _ _ Hp) as (tab' & var' & Htab & Hl & Hv).
    simpl in *.
    rewrite (get_session_found fcg st' x tab' var' Hgn) by (done || congruence).
    rewrite Hv, read_value; try congruence. by rewrite Hval.
Qed.

(** X4.  A null name and an unresolved type are refused by all four
    functions before anything is written. *)
Theorem null_name_and_unresolved_type st txnid subtxnid ty null d nm :
  let no_name := {| arg_name := None; arg_type := ty; arg_isnull := null; arg_datum := d |} in
  let no_type := {| arg_name := Some nm; arg_type := InvalidOid; arg_isnull := null;
                    arg_datum := d |} in
  set txnid subtxnid no_name st = Some (Ereport name_must_not_be_null, st) /\
  get txnid no_name st = Some (Ereport name_must_not_be_null, st) /\
  set_session no_name st = (Ereport name_must_not_be_null, st) /\
  get_session no_name st = (Ereport name_must_not_be_null, st) /\
  set txnid subtxnid no_type st = Some (Ereport value_type_cant_be_inferred, st) /\
  get txnid no_type st = Some (Ereport default_value_type_cant_be_inferred, st) /\
  set_session no_type st = (Ereport value_type_cant_be_inferred, st) /\
  get_session no_type st = (Ereport default_value_type_cant_be_inferred, st).
Proof. repeat split. Qed.

(** X5.  Idempotent overwrite within a subtransaction: the first write
    of a name and a second write of it in the same subtransaction leave a
    chain of one node, which holds the second value; no node is allocated
    for the second write. *)
Theorem same_subtransaction_overwrite st txnid subtxnid x ty v1 v2 :
  reachable st -> txnid <> InvalidTransactionId -> ty <> InvalidOid ->
  storable ty = true ->
  resolved txnid st !! x = None ->
  exists st1 st2 tab var,
    set txnid subtxnid (call x ty v1) st = Some (Return v1, st1) /\
    set txnid subtxnid (call x ty v2) st1 = Some (Return v2, st2) /\
    current_tab st1 = Some tab /\ current_tab st2 = Some tab /\
    tab !! x = Some var /\
    chain (memory st2) (variable_value var) [variable_value var] /\
    value (memory st2 (variable_value var)) = v2.
Proof.
  intros Hr Htx Hty Hst Hnew.
  destruct (set_first st txnid subtxnid x ty v1 Hr Htx Hty Hst Hnew)
    as (st1 & tab1 & var1 & Hs1 & Hr1 & Hlu1 & Htab1 & Hl1 & Hm1).
  destruct (set_stores txnid subtxnid (call x ty v2) x st1 eq_refl Hty)
    as (p2 & st2 & Hs2 & Hp2 & _ & _ & _ & Hval2).
  { apply copy_raises_false. by right. }
  { by eapply invariant_table_known, Htx; apply reachable_invariant. }
  destruct Hp2 as [He2 _ _ _ _ _ _ _ _]. simpl in *.
  rewrite (resolved_current txnid st1 tab1 Hlu1 Htab1) in He2.
  destruct He2 as [E1 | w E1 E2 E3 E4 E5 E6 | w E1 E2 E3 E4 E5 E6];
    [congruence | | ]; assert (w = var1) as -> by congruence.
  { rewrite Hm1 in E2. simpl in E2. lia. }
  subst p2. exists st1, st2, tab1, var1. repeat split; try done.
  - by apply chain_end.
  - by apply Hval2.
Qed.

(** X7.  What [set_session] does on a name that is already there, for a
    value that is SQL null or of a type that can be stored: the entry
    points to a new chunk of [TopMemoryContext], of which the call writes
    the payload, the type and the null flag; the chunk's [previous] and
    [subxactid] are as the allocator left them, and nothing else in the
    nodes nor the transactional table changes. *)
Theorem set_session_overwrite_frame st fc s tab var :
  arg_name fc = Some s -> arg_type fc <> InvalidOid ->
  arg_isnull fc = true \/ storable (arg_type fc) = true ->
  session_tab st = Some tab -> tab !! s = Some var ->
  let fresh := Chunk TopMemoryContext (allocated st TopMemoryContext) in
  exists st',
    set_session fc st =
      (if arg_isnull fc then ReturnNull else Return (arg_datum fc), st') /\
    session_tab st' = Some (<[s := {| name := name var; variable_value := fresh |}]> tab) /\
    current_tab st' = current_tab st /\
    (forall q, q <> fresh -> memory st' q = memory st q) /\
    previous (memory st' fresh) = previous (memory st fresh) /\
    subxactid (memory st' fresh) = subxactid (memory st fresh) /\
    oid (memory st' fresh) = arg_type fc /\
    isnull (memory st' fresh) = arg_isnull fc /\
    (arg_isnull fc = false -> value (memory st' fresh) = arg_datum fc).
Proof.
  intros Hnm Hty Hst Htab Hl fresh.
  destruct (set_session_stores fc s st Hnm Hty (copy_raises_false fc Hst))
    as (vvar & st' & Hs & Hp & Hoid & Hnull & Hval).
  exists st'. split; [exact Hs |].
  destruct Hp as [He _ Hct Hfr Hsub _ _ _].
  rewrite Htab in He. simpl in He.
  destruct He as [E1 | w E1 E2 E3 E4 E5 E6]; [congruence |].
  assert (w = var) as -> by congruence. subst vvar. by repeat split.
Qed.

End Further.

(** ** The code on concrete inputs *)

Lemma reachable_state_after `{Host} st txnid subtxnid fc :
  reachable st -> txnid <> InvalidTransactionId ->
  reachable (state_after st (set txnid subtxnid fc st)).
Proof.
  intros Hr Htx. destruct (set txnid subtxnid fc st) as [[r st'] |] eqn:Hs; simpl; [| done].
  by eapply reachable_set.
Qed.

(** C2.  Transaction 100 writes [x] in subtransaction 1 and twice in
    subtransaction 2.  Before the third write the chain of [x] is the
    chunk of the second write followed by the embedded node of the first.
    The third write goes to the same head and does not allocate, but it
    also sets the head's [previous] to null: the chain is one node long,
    and the abort of subtransaction 2 then removes [x] where it should
    bring back the value 1. *)
Theorem overwrite_in_place_clears_previous :
  let head := Chunk TopTransactionContext 0 in
  let first := Embedded CurrentTab "x"%string in
  (current_tab wrote_x_twice ≫= (.!! "x"%string)) = Some {| name := "x"; variable_value := head |} /\
  subxactid (memory wrote_x_twice head) = 2 /\
  walk 5 (memory wrote_x_twice) head = Some [head; first] /\
  set (H := example_host) 100 2 (call "x" int4 3) wrote_x_twice = Some (Return 3, wrote_x_again) /\
  (current_tab wrote_x_again ≫= (.!! "x"%string)) = Some {| name := "x"; variable_value := head |} /\
  allocated wrote_x_again TopTransactionContext = allocated wrote_x_twice TopTransactionContext /\
  memory wrote_x_again first = memory wrote_x_twice first /\
  previous (memory wrote_x_twice head) = Some first /\
  previous (memory wrote_x_again head) = None /\
  walk 5 (memory wrote_x_again) head = Some [head] /\
  (subtransaction_callback 5 SUBXACT_EVENT_ABORT_SUB 2 1 wrote_x_again
     ≫= fun st => fst <$> get (H := example_host) 100 (call "x" int4 0) st) = Some (Return 0).
Proof. vm_compute. repeat split. Qed.

(** C5.  A session stores [s] twice.  The first call uses the node
    embedded in the new entry and clears its link.  The second call
    allocates a chunk for the entry and never writes the chunk's
    [previous]: the link holds what the memory held before, here a
    pointer that is not null. *)
Theorem set_session_leaves_previous_unwritten :
  let fresh := Chunk TopMemoryContext 0 in
  (session_tab session_wrote_s_once ≫= (.!! "s"%string))
    = Some {| name := "s"; variable_value := Embedded SessionTab "s" |} /\
  previous (memory session_wrote_s_once (Embedded SessionTab "s")) = None /\
  (session_tab session_wrote_s_twice ≫= (.!! "s"%string))
    = Some {| name := "s"; variable_value := fresh |} /\
  previous (memory session_wrote_s_twice fresh) = previous (leftover fresh) /\
  previous (memory session_wrote_s_twice fresh) = Some (Chunk TopMemoryContext 99) /\
  walk 5 (memory session_wrote_s_twice) fresh <> Some [fresh] /\
  (get_session (H := example_host) (call "s" int4 0) session_wrote_s_twice).1 = Return 2.
Proof. vm_compute. repeat split. discriminate. Qed.

(** C6.  Transaction 100 writes an [integer] under [x] in subtransaction
    5 and then, in subtransaction 6, calls [set] with a [cstring] for
    [x].  The call allocates a node, makes it the head of [x] with the
    node of the first write as its [previous], and then raises in
    [palloc(typlen)], [typlen] being -2: the identifier of the new head is
    never written.  In memory that was all zeroes the chain of [x] now
    reads 0, 5 from the head, which is not decreasing.  The abort of
    subtransaction 6, which the error brings about, keeps the unfilled
    head because its identifier is below 6, and a [get] of [x] then reads
    that node, not the value 1 of subtransaction 5. *)
Theorem raise_in_copy_leaves_unfilled_head :
  let head := Chunk TopTransactionContext 0 in
  let first := Embedded CurrentTab "x"%string in
  (reachable (H := cstring_host) wrote_x_in_5 /\
   reachable (H := cstring_host) raised_in_6 /\
   reachable (H := cstring_host) aborted_6) /\
  walk 5 (memory wrote_x_in_5) first = Some [first] /\
  get (H := cstring_host) 100 (call "x" int4 0) wrote_x_in_5
    = Some (Return 1, wrote_x_in_5) /\
  set (H := cstring_host) 100 6 (call "x" cstring 7) wrote_x_in_5
    = Some (Ereport {| errmsg := "invalid memory alloc request size 18446744073709551614";
                       errdetail := None |}, raised_in_6) /\
  (current_tab raised_in_6 ≫= (.!! "x"%string))
    = Some {| name := "x"; variable_value := head |} /\
  walk 5 (memory raised_in_6) head = Some [head; first] /\
  subxactid (memory raised_in_6 head) = 0 /\
  subxactid (memory raised_in_6 first) = 5 /\
  (descending (memory raised_in_6) [head; first] -> False) /\
  subtransaction_callback 2 SUBXACT_EVENT_ABORT_SUB 6 5 raised_in_6 = Some aborted_6 /\
  (current_tab aborted_6 ≫= (.!! "x"%string))
    = Some {| name := "x"; variable_value := head |} /\
  get (H := cstring_host) 100 (call "x" int4 0) aborted_6
    = Some (Ereport {| errmsg := "type mismatch";
                       errdetail := Some "expected -, got integer"%string |}, aborted_6).
Proof.
  assert (H5 : reachable (H := cstring_host) wrote_x_in_5).
  { apply reachable_state_after; [apply reachable_initial | done]. }
  assert (H6 : reachable (H := cstring_host) raised_in_6).
  { by apply reachable_state_after. }
  intros head first. split; [split; [exact H5 | split; [exact H6 |]] |].
  - apply (reachable_subtransaction_callback (H := cstring_host) raised_in_6 2
             SUBXACT_EVENT_ABORT_SUB 6 5 aborted_6 H6).
    vm_compute. reflexivity.
  - vm_compute. repeat split. intros [Hd _]. discriminate Hd.
Qed.

(** C9, the claim as it was stated fails: [set] and [set_session] do not
    return the value they are given when its type cannot be resolved at
    the call site, nor when it is a [cstring]. *)
Lemma set_does_not_return_every_value :
  let unresolved := call "c" InvalidOid 5 in
  let refused := call "c" cstring 5 in
  let raised :=
    Ereport {| errmsg := "invalid memory alloc request size 18446744073709551614";
               errdetail := None |} in
  (fst <$> set (H := cstring_host) 100 1 unresolved (initial_state zeroed))
    = Some (Ereport value_type_cant_be_inferred) /\
  (set_session (H := cstring_host) unresolved (initial_state zeroed)).1
    = Ereport value_type_cant_be_inferred /\
  (fst <$> set (H := cstring_host) 100 1 refused (initial_state zeroed)) = Some raised /\
  (set_session (H := cstring_host) refused (initial_state zeroed)).1 = raised /\
  Ereport value_type_cant_be_inferred <> Return 5 /\ raised <> Return 5.
Proof. vm_compute. repeat split; discriminate. Qed.

(** C4, the claim as it was stated fails: [x] holds a null [integer]; a
    [get] that asks for [text] does not raise "type mismatch", it returns
    SQL null. *)
Lemma type_mismatch_not_raised_for_null :
  (current_tab wrote_x_null ≫= (.!! "x"%string))
    = Some {| name := "x"; variable_value := Embedded CurrentTab "x" |} /\
  oid (memory wrote_x_null (Embedded CurrentTab "x")) = int4 /\
  int4 <> text /\
  get (H := example_host) 100 (call "x" text 7) wrote_x_null = Some (ReturnNull, wrote_x_null) /\
  get (H := example_host) 100 (call "x" text 7) wrote_x_null
    <> Some (Ereport (type_mismatch (H := example_host) int4 text), wrote_x_null).
Proof. vm_compute. repeat split; discriminate. Qed.

Lemma reachable_wrote_x_once : reachable (H := example_host) wrote_x_once.
Proof. apply reachable_state_after; [apply reachable_initial | done]. Qed.

Lemma reachable_wrote_x_twice : reachable (H := example_host) wrote_x_twice.
Proof. apply reachable_state_after; [apply reachable_wrote_x_once | done]. Qed.

Lemma reachable_session_wrote_s_twice :
  reachable (H := example_host) session_wrote_s_twice.
Proof. do 2 apply reachable_set_session. apply reachable_initial. Qed.

Lemma filled_wrote_x_twice : reachable_filled (H := example_host) wrote_x_twice.
Proof.
  apply (filled_set (H := example_host) wrote_x_once 100 2 (call "x" int4 2) (Return 2));
    [| done | vm_compute; reflexivity | intros e [=]].
  apply (filled_set (H := example_host) (initial_state zeroed) 100 1 (call "x" int4 1)
           (Return 1));
    [apply filled_initial | done | vm_compute; reflexivity | intros e [=]].
Qed.

(** The three writes and the abort of C1, run from the initial state. *)
Lemma multi_level_cascade_witness :
  exists st1 st2 st3,
    set (H := example_host) 100 1 (call "x" int4 1) (initial_state zeroed)
      = Some (Return 1, st1) /\
    set (H := example_host) 100 2 (call "x" int4 2) st1 = Some (Return 2, st2) /\
    set (H := example_host) 100 3 (call "x" int4 3) st2 = Some (Return 3, st3) /\
    exists fuel0, forall fuel, (fuel0 <= fuel)%nat ->
      exists st4 tab var,
        subtransaction_callback fuel SUBXACT_EVENT_ABORT_SUB 2 1 st3 = Some st4 /\
        get (H := example_host) 100 (call "x" int4 0) st4 = Some (Return 1, st4) /\
        current_tab st4 = Some tab /\ tab !! "x"%string = Some var /\
        chain (memory st4) (variable_value var) [variable_value var].
Proof.
  apply (multi_level_cascade (H := example_host) (initial_state zeroed)
           100 1 2 3 "x"%string int4 1 2 3 1 (call "x" int4 0)).
  - apply reachable_initial.
  - done.
  - done.
  - reflexivity.
  - lia.
  - lia.
  - reflexivity.
  - reflexivity.
  - reflexivity.
Defined.

(** [x] was written in subtransaction 1 only; subtransaction 1 aborts. *)
Lemma full_invalidation_witness :
  exists fuel0, forall fuel, (fuel0 <= fuel)%nat ->
    exists st' tab',
      subtransaction_callback fuel SUBXACT_EVENT_ABORT_SUB 1 0 wrote_x_once = Some st' /\
      current_tab st' = Some tab' /\ tab' !! "x"%string = None /\
      forall txnid fc, arg_name fc = Some "x"%string -> arg_type fc <> InvalidOid ->
        get (H := example_host) txnid fc st' = Some (default_value fc, st').
Proof.
  apply (full_invalidation (H := example_host) wrote_x_once
           {[ "x"%string := {| name := "x"; variable_value := Embedded CurrentTab "x" |} ]}
           "x"%string {| name := "x"; variable_value := Embedded CurrentTab "x" |}
           [Embedded CurrentTab "x"] 1 0).
  - apply reachable_wrote_x_once.
  - reflexivity.
  - reflexivity.
  - apply chain_end. reflexivity.
  - repeat constructor. vm_compute. discriminate.
Defined.

(** A [get] that asks for [text] where [x] holds a non-null [integer]. *)
Lemma type_mismatch_unless_null_witness :
  get (H := example_host) 100 (call "x" text 7) wrote_x_once
    = Some (Ereport {| errmsg := "type mismatch";
                       errdetail := Some "expected integer, got text"%string |},
            wrote_x_once).
Proof.
  apply (type_mismatch_unless_null (H := example_host) wrote_x_once 100
           (call "x" text 7) "x"%string
           {[ "x"%string := {| name := "x"; variable_value := Embedded CurrentTab "x" |} ]}
           {| name := "x"; variable_value := Embedded CurrentTab "x" |}).
  - reflexivity.
  - done.
  - reflexivity.
  - vm_compute. discriminate.
  - done.
  - reflexivity.
  - reflexivity.
Defined.

(** The chain of [x] after writes in subtransactions 1 and 2. *)
Lemma filled_chains_strictly_decrease_witness :
  exists l, chain (memory wrote_x_twice) (Chunk TopTransactionContext 0) l /\
            descending (memory wrote_x_twice) l.
Proof.
  apply (filled_chains_strictly_decrease (H := example_host) wrote_x_twice
           {[ "x"%string := {| name := "x"; variable_value := Chunk TopTransactionContext 0 |} ]}
           "x"%string {| name := "x"; variable_value := Chunk TopTransactionContext 0 |}).
  - apply filled_wrote_x_twice.
  - reflexivity.
  - reflexivity.
Defined.


(** A [get] in transaction 200 after [x] was set in transaction 100, which
    committed. *)
Lemma get_default_and_isolation_witness :
  get (H := example_host) 200 (call "x" int4 0)
      (transaction_callback (H := example_host) XACT_EVENT_COMMIT wrote_x_once)
    = Some (Return 0, transaction_callback (H := example_host) XACT_EVENT_COMMIT wrote_x_once).
Proof.
  apply (proj2 (get_default_and_isolation (H := example_host)) (initial_state zeroed)
           100 1 (call "x" int4 1) "x"%string (Return 1) wrote_x_once
           XACT_EVENT_COMMIT 200 (call "x" int4 0)).
  - apply reachable_initial.
  - done.
  - reflexivity.
  - done.
  - reflexivity.
  - done.
  - reflexivity.
  - done.
Defined.

(** The subtransaction 2 of the session example aborts. *)
Lemma session_bypass_witness :
  exists fuel0, forall fuel, (fuel0 <= fuel)%nat ->
    exists st',
      subtransaction_callback fuel SUBXACT_EVENT_ABORT_SUB 2 1 session_wrote_s_twice
        = Some st' /\
      get_session (H := example_host) (call "s" int4 0) st' = (Return 2, st').
Proof.
  destruct (session_bypass (H := example_host) session_wrote_s_twice
              SUBXACT_EVENT_ABORT_SUB 2 1 reachable_session_wrote_s_twice)
    as [fuel0 Hf].
  exists fuel0. intros fuel Hfuel.
  destruct (Hf fuel Hfuel) as (st' & Hcb & _ & _ & Hg).
  exists st'. split; [exact Hcb |]. rewrite Hg. reflexivity.
Defined.

(** [set] and [set_session] of a [text] value, and of a null [integer],
    from the initial state. *)
Lemma set_returns_what_it_stores_witness :
  let read_text (fcg : FunctionCallInfo) :=
    if text =? arg_type fcg then Return 42
    else Ereport (type_mismatch (H := example_host) text (arg_type fcg)) in
  ((exists st',
      set (H := example_host) 100 1 (call "x" text 42) (initial_state zeroed)
        = Some (Return 42, st') /\
      forall fcg, arg_name fcg = Some "x"%string -> arg_type fcg <> InvalidOid ->
        get (H := example_host) 100 fcg st' = Some (read_text fcg, st')) /\
   (exists st',
      set_session (H := example_host) (call "x" text 42) (initial_state zeroed)
        = (Return 42, st') /\
      forall fcg, arg_name fcg = Some "x"%string -> arg_type fcg <> InvalidOid ->
        get_session (H := example_host) fcg st' = (read_text fcg, st'))) /\
  ((exists st',
      set (H := example_host) 100 1 (call_null "x" int4) (initial_state zeroed)
        = Some (ReturnNull, st') /\
      forall fcg, arg_name fcg = Some "x"%string -> arg_type fcg <> InvalidOid ->
        get (H := example_host) 100 fcg st' = Some (ReturnNull, st')) /\
   (exists st',
      set_session (H := example_host) (call_null "x" int4) (initial_state zeroed)
        = (ReturnNull, st') /\
      forall fcg, arg_name fcg = Some "x"%string -> arg_type fcg <> InvalidOid ->
        get_session (H := example_host) fcg st' = (ReturnNull, st'))).
Proof.
  split.
  - apply (set_returns_what_it_stores (H := example_host) (initial_state zeroed)
             100 1 (call "x" text 42) "x"%string).
    + apply reachable_initial.
    + done.
    + reflexivity.
    + done.
    + right. reflexivity.
  - apply (set_returns_what_it_stores (H := example_host) (initial_state zeroed)
             100 1 (call_null "x" int4) "x"%string).
    + apply reachable_initial.
    + done.
    + reflexivity.
    + done.
    + left. reflexivity.
Defined.

(** A read of [x] in the transaction that wrote it. *)
Lemma reads_are_pure_witness :
  (exists r, get (H := example_host) 100 (call "x" int4 0) wrote_x_once
             = Some (r, wrote_x_once)) /\
  (get_session (H := example_host) (call "x" int4 0) wrote_x_once).2 = wrote_x_once.
Proof.
  apply (reads_are_pure (H := example_host) wrote_x_once 100 (call "x" int4 0)).
  apply reachable_wrote_x_once.
Defined.

(** The spec's single-level example, run from the initial state. *)
Lemma single_level_rollback_witness :
  exists st1 st2,
    set (H := example_host) 100 1 (call "x" int4 1) (initial_state zeroed)
      = Some (Return 1, st1) /\
    set (H := example_host) 100 2 (call "x" int4 2) st1 = Some (Return 2, st2) /\
    get (H := example_host) 100 (call "x" int4 0) st2 = Some (Return 2, st2) /\
    exists fuel0, forall fuel, (fuel0 <= fuel)%nat ->
      exists st3,
        subtransaction_callback fuel SUBXACT_EVENT_ABORT_SUB 2 1 st2 = Some st3 /\
        get (H := example_host) 100 (call "x" int4 0) st3 = Some (Return 1, st3).
Proof.
  apply (single_level_rollback (H := example_host) (initial_state zeroed)
           100 1 2 "x"%string int4 1 2 1 (call "x" int4 0)).
  - apply reachable_initial.
  - done.
  - done.
  - reflexivity.
  - lia.
  - reflexivity.
  - reflexivity.
  - reflexivity.
Defined.

(** A [text] value stored and read back, in a transaction and in the
    session. *)
Lemma round_trip_witness :
  (exists st',
     set (H := example_host) 100 1 (call "t" text 42) (initial_state zeroed)
       = Some (Return 42, st') /\
     get (H := example_host) 100 (call "t" text 0) st' = Some (Return 42, st')) /\
  (exists st',
     set_session (H := example_host) (call "t" text 42) (initial_state zeroed)
       = (Return 42, st') /\
     get_session (H := example_host) (call "t" text 0) st' = (Return 42, st')).
Proof.
  apply (round_trip (H := example_host) (initial_state zeroed) 100 1 "t"%string text 42
           (call "t" text 0)).
  - apply reachable_initial.
  - done.
  - done.
  - reflexivity.
  - reflexivity.
  - reflexivity.
Defined.

(** Two writes of [x] in subtransaction 1 of a new transaction. *)
Lemma same_subtransaction_overwrite_witness :
  exists st1 st2 tab var,
    set (H := example_host) 100 1 (call "x" int4 1) (initial_state zeroed)
      = Some (Return 1, st1) /\
    set (H := example_host) 100 1 (call "x" int4 2) st1 = Some (Return 2, st2) /\
    current_tab st1 = Some tab /\ current_tab st2 = Some tab /\
    tab !! "x"%string = Some var /\
    chain (memory st2) (variable_value var) [variable_value var] /\
    value (memory st2 (variable_value var)) = 2.
Proof.
  apply (same_subtransaction_overwrite (H := example_host) (initial_state zeroed)
           100 1 "x"%string int4 1 2).
  - apply reachable_initial.
  - done.
  - done.
  - reflexivity.
  - reflexivity.
Defined.

(** The second [set_session] of [s]. *)
Lemma set_session_overwrite_frame_witness :
  let fresh := Chunk TopMemoryContext 0 in
  exists st',
    set_session (H := example_host) (call "s" int4 2) session_wrote_s_once
      = (Return 2, st') /\
    session_tab st' =
      Some (<["s"%string := {| name := "s"; variable_value := fresh |}]>
              {[ "s"%string := {| name := "s"; variable_value := Embedded SessionTab "s" |} ]}) /\
    current_tab st' = current_tab session_wrote_s_once /\
    (forall q, q <> fresh -> memory st' q = memory session_wrote_s_once q) /\
    previous (memory st' fresh) = previous (memory session_wrote_s_once fresh) /\
    subxactid (memory st' fresh) = subxactid (memory session_wrote_s_once fresh) /\
    oid (memory st' fresh) = int4 /\
    isnull (memory st' fresh) = false /\
    (false = false -> value (memory st' fresh) = 2).
Proof.
  apply (set_session_overwrite_frame (H := example_host) session_wrote_s_once
           (call "s" int4 2) "s"%string
           {[ "s"%string := {| name := "s"; variable_value := Embedded SessionTab "s" |} ]}
           {| name := "s"; variable_value := Embedded SessionTab "s" |}).
  - reflexivity.
  - done.
  - right. reflexivity.
  - reflexivity.
  - reflexivity.
Defined.

(** * Further properties of [omni_var.c] *)

Section SessionInvariant.
Context `{Host}.

Lemma session_head_not_transactional bound n p :
  session_head bound n p -> ~ transactional p.
Proof. intros [-> | (a & -> & _)]; simpl; tauto. Qed.

Lemma session_invariant_same st st' :
  session_tab st' = session_tab st ->
  allocated st' TopMemoryContext = allocated st TopMemoryContext ->
  session_invariant st -> session_invariant st'.
Proof. intros Ht Ha Hinv tab. rewrite Ht, Ha. apply Hinv. Qed.

Lemma session_head_grow bound bound' n p :
  (bound <= bound')%nat -> session_head bound n p -> session_head bound' n p.
Proof.
  intros Hle [-> | (a & -> & Ha)]; [by left |]. right. exists a. split; [done | lia].
Qed.

Lemma set_session_preserves_session_invariant fc st :
  session_invariant st -> session_invariant (set_session fc st).2.
Proof.
  intros Hinv.
  destruct (set_session_cases fc st)
    as [[r0 Hs0] | (nm & vvar & st0 & Hnm & Hty & Hs0 & Hp)];
    rewrite Hs0; simpl; [done |].
  destruct Hp as [He _ _ _ _ _ _ _].
  assert (Hold : forall n var, default ∅ (session_tab st) !! n = Some var ->
            session_head (allocated st TopMemoryContext) n (variable_value var) /\
            forall m vm, default ∅ (session_tab st) !! m = Some vm -> n <> m ->
              variable_value var <> variable_value vm).
  { destruct (session_tab st) as [tab |] eqn:Htab; simpl.
    - destruct (Hinv tab Htab) as [Hh Hd]. intros n var Hl. split; [by apply Hh |].
      intros m vm Hm Hne. by eapply Hd.
    - intros n var. by rewrite lookup_empty. }
  intros tab' Htab'.
  destruct He as [E1 E2 E3 E4 E5 E6 | var E1 E2 E3 E4 E5 E6]; rewrite Htab' in E3;
    injection E3 as ->.
  - (* a new name: its embedded node *)
    split.
    + intros n v. destruct (decide (n = nm)) as [-> | Hn].
      * rewrite lookup_insert_eq. intros [= <-]. left. by rewrite E2.
      * rewrite lookup_insert_ne by done. intros Hl.
        eapply session_head_grow; [| by apply Hold]. lia.
    + intros n m vn vm.
      destruct (decide (n = nm)) as [-> | Hn]; destruct (decide (m = nm)) as [-> | Hm];
        rewrite ?lookup_insert_eq, ?lookup_insert_ne by done; try done.
      * intros [= <-] Hl _. simpl. rewrite E2. intros Heq.
        destruct (Hold m vm Hl) as [[Hh | (a & Hh & _)] _]; congruence.
      * intros Hl [= <-] _. simpl. rewrite E2. intros Heq.
        destruct (Hold n vn Hl) as [[Hh | (a & Hh & _)] _]; congruence.
      * intros Hl1 Hl2 Hne. by eapply Hold.
  - (* a name that was there: the next chunk *)
    split.
    + intros n v. destruct (decide (n = nm)) as [-> | Hn].
      * rewrite lookup_insert_eq. intros [= <-]. right. simpl.
        exists (allocated st TopMemoryContext). split; [done | lia].
      * rewrite lookup_insert_ne by done. intros Hl.
        eapply session_head_grow; [| by apply Hold]. lia.
    + intros n m vn vm.
      destruct (decide (n = nm)) as [-> | Hn]; destruct (decide (m = nm)) as [-> | Hm];
        rewrite ?lookup_insert_eq, ?lookup_insert_ne by done; try done.
      * intros [= <-] Hl _. simpl. rewrite E2. intros Heq.
        destruct (Hold m vm Hl) as [[Hh | (a & Hh & Ha)] _]; [congruence |].
        rewrite Hh in Heq. injection Heq as Heq. lia.
      * intros Hl [= <-] _. simpl. rewrite E2. intros Heq.
        destruct (Hold n vn Hl) as [[Hh | (a & Hh & Ha)] _]; [congruence |].
        rewrite Hh in Heq. injection Heq as Heq. lia.
      * intros Hl1 Hl2 Hne. by eapply Hold.
Qed.

Lemma reachable_session_invariant st : reachable st -> session_invariant st.
Proof.
  induction 1 as [mem | st txnid subtxnid fc r st' Hr IH Htx Hs
                  | st txnid fc r st' _ IH Hg | st fc _ IH | st fc _ IH
                  | st fuel event xact_id parent_xact_id st' _ IH Hcb
                  | st event _ IH].
  - intros tab [=].
  - destruct (set_cases false txnid subtxnid fc st (reachable_invariant st Hr) Htx)
      as [[r0 Hs0] | (nm & vvar & st0 & Hnm & Hty & Hs0 & Hp)];
      rewrite Hs0 in Hs; injection Hs as <- <-; [done |].
    destruct Hp. by eapply session_invariant_same.
  - by rewrite (get_pure _ _ _ _ _ Hg).
  - by apply set_session_preserves_session_invariant.
  - by rewrite get_session_pure.
  - destruct (subtransaction_callback_frame _ _ _ _ _ _ Hcb) as (Hs & _ & Ha & _).
    eapply session_invariant_same; [done | by rewrite Ha | done].
  - destruct (transaction_callback_statics event st) as (_ & _ & Hs & _ & Ha).
    eapply session_invariant_same; [done | by rewrite Ha | done].
Qed.

(** The heads of the transactional table are transactional nodes, and no
    two names share one. *)
Lemma head_transactional o st tab n var :
  invariant o st -> current_tab st = Some tab -> tab !! n = Some var ->
  transactional (variable_value var).
Proof.
  intros [_ Hgood] Htab Hl. destruct (Hgood tab Htab) as [own Hown].
  destruct (Hown n var Hl) as (_ & l & Hc & _ & Ho).
  destruct (chain_head _ _ _ Hc) as [t ->].
  apply Forall_cons_1 in Ho as [Ho _]. by eapply owned_transactional.
Qed.

Lemma heads_distinct o st tab n m vn vm :
  invariant o st -> current_tab st = Some tab ->
  tab !! n = Some vn -> tab !! m = Some vm -> n <> m ->
  variable_value vn <> variable_value vm.
Proof.
  intros [_ Hgood] Htab Hn Hm Hne Heq. destruct (Hgood tab Htab) as [own Hown].
  destruct (Hown n vn Hn) as (_ & ln & Hcn & _ & Hon).
  destruct (Hown m vm Hm) as (_ & lm & Hcm & _ & Hom).
  destruct (chain_head _ _ _ Hcn) as [tn ->]. destruct (chain_head _ _ _ Hcm) as [tm ->].
  apply Forall_cons_1 in Hon as [Hon _]. apply Forall_cons_1 in Hom as [Hom _].
  rewrite Heq in Hon. destruct Hne. by eapply owned_unique.
Qed.

Lemma head_not_embedded_of_other o st tab n m var :
  invariant o st -> current_tab st = Some tab -> tab !! n = Some var -> n <> m ->
  variable_value var <> Embedded CurrentTab m.
Proof.
  intros [_ Hgood] Htab Hl Hne Heq. destruct (Hgood tab Htab) as [own Hown].
  destruct (Hown n var Hl) as (_ & l & Hc & _ & Ho).
  destruct (chain_head _ _ _ Hc) as [t ->].
  apply Forall_cons_1 in Ho as [[Ho | (a & Ha & _)] _]; congruence.
Qed.

End SessionInvariant.

Section Frames.
Context `{Host}.

Lemma resolved_lookup txnid st n var :
  resolved txnid st !! n = Some var ->
  exists tab, current_tab st = Some tab /\ tab !! n = Some var.
Proof.
  unfold resolved. destruct (last_used_txnid st =? txnid); [| by rewrite lookup_empty].
  destruct (current_tab st) as [tab |]; simpl; [eauto | by rewrite lookup_empty].
Qed.

(** The node [set] writes is a node of the transactional table. *)
Lemma entered_transactional o nm subtxnid txnid st st' vvar k :
  invariant o st -> entered nm subtxnid (resolved txnid st) st st' vvar k ->
  transactional vvar.
Proof.
  intros Hinv [E1 -> | var E1 E2 -> | var E1 E2 ->]; try done.
  destruct (resolved_lookup _ _ _ _ E1) as (tab & Htab & Hl).
  by eapply head_transactional.
Qed.

(** [get] reads the statics, the entry of its name and the head node of
    that entry, nothing else. *)
Lemma get_agree txnid fc st st' y tab tab' :
  arg_name fc = Some y ->
  last_used_txnid st' = last_used_txnid st ->
  current_tab st = Some tab -> current_tab st' = Some tab' ->
  tab' !! y = tab !! y ->
  (forall var, tab !! y = Some var ->
     memory st' (variable_value var) = memory st (variable_value var)) ->
  fst <$> get txnid fc st' = fst <$> get txnid fc st.
Proof.
  intros Hy Hlu Htab Htab' Hl Hmem. unfold get. rewrite Hy, Hlu, Htab, Htab', Hl.
  destruct (arg_type fc =? InvalidOid); [done |].
  destruct (_ || _); [done |].
  destruct (tab !! y) as [var |] eqn:Hvar; [| done].
  simpl. by rewrite Hmem.
Qed.

Lemma get_session_agree fc st st' :
  match arg_name fc with
  | Some y =>
      default ∅ (session_tab st') !! y = default ∅ (session_tab st) !! y /\
      forall var, default ∅ (session_tab st) !! y = Some var ->
        memory st' (variable_value var) = memory st (variable_value var)
  | None => True
  end ->
  (get_session fc st').1 = (get_session fc st).1.
Proof.
  unfold get_session. destruct (arg_name fc) as [y |]; [| done].
  intros [Hl Hmem]. destruct (arg_type fc =? InvalidOid); [done |].
  destruct (session_tab st') as [tab' |], (session_tab st) as [tab |]; simpl in *.
  - rewrite Hl. destruct (tab !! y) as [var |] eqn:Hvar; [| done].
    simpl. by rewrite Hmem.
  - rewrite Hl. by rewrite lookup_empty.
  - rewrite <- Hl, lookup_empty. done.
  - done.
Qed.

Lemma session_heads st n var :
  session_invariant st -> default ∅ (session_tab st) !! n = Some var ->
  session_head (allocated st TopMemoryContext) n (variable_value var).
Proof.
  intros Hinv. destruct (session_tab st) as [tab |] eqn:Htab; simpl.
  - by apply (Hinv tab Htab).
  - by rewrite lookup_empty.
Qed.

(** X8.  Writing one name leaves what is read under every other name: a
    [set] in the running top-level transaction does not change what [get]
    returns for another name, and [set_session] does not change what
    [get_session] returns for another name. *)
Theorem writes_leave_other_names st txnid subtxnid fc x y fcg :
  reachable st -> txnid <> InvalidTransactionId -> last_used_txnid st = txnid ->
  arg_name fc = Some x -> arg_name fcg = Some y -> x <> y ->
  (exists r st',
     set txnid subtxnid fc st = Some (r, st') /\
     fst <$> get txnid fcg st' = fst <$> get txnid fcg st) /\
  (get_session fcg (set_session fc st).2).1 = (get_session fcg st).1.
Proof.
  intros Hr Htx Hlu Hx Hy Hne.
  pose proof (reachable_invariant st Hr) as Hinv.
  pose proof (reachable_session_invariant st Hr) as Hsinv. split.
  - destruct (set_cases false txnid subtxnid fc st Hinv Htx)
      as [[r Hs] | (nm & vvar & st' & Hnm & Hty & Hs & Hp)]; [by eauto |].
    assert (nm = x) as -> by congruence.
    eexists _, st'. split; [exact Hs |].
    destruct (current_tab st) as [tab |] eqn:Htab.
    2:{ destruct Hinv as [Hnone _]. rewrite Hnone in Hlu by done. congruence. }
    destruct (set_then_lookup _ _ _ _ _ _ _ Hp) as (tab' & var' & Htab' & _ & _).
    destruct Hp as [He Hlu' _ _ Hfr _ _ _ _].
    rewrite (resolved_current txnid st tab Hlu Htab) in He.
    apply (get_agree txnid fcg st st' y tab tab'); try done; [congruence | |].
    + destruct He as [E1 E2 E3 E4 E5 | var E1 E2 E3 E4 E5 E6 | var E1 E2 E3 E4 E5 E6];
        rewrite Htab' in *; simplify_eq; by rewrite ?lookup_insert_ne.
    + intros vy Hvy. apply Hfr.
      destruct He as [E1 E2 E3 E4 E5 | var E1 E2 E3 E4 E5 E6 | var E1 E2 E3 E4 E5 E6];
        subst vvar.
      * by eapply head_not_embedded_of_other.
      * by eapply head_not_fresh.
      * by eapply heads_distinct.
  - destruct (set_session_cases fc st)
      as [[r Hs] | (nm & vvar & st' & Hnm & Hty & Hs & Hp)]; rewrite Hs; simpl; [done |].
    assert (nm = x) as -> by congruence.
    apply get_session_agree. rewrite Hy.
    destruct Hp as [He _ _ Hfr _ _ _ _].
    destruct He as [E1 E2 E3 E4 E5 E6 | var E1 E2 E3 E4 E5 E6]; rewrite E3; simpl;
      (split; [by rewrite lookup_insert_ne |]);
      intros vy Hvy; apply Hfr; subst vvar;
      destruct (session_heads st y vy Hsinv Hvy) as [Hh | (a & Hh & Ha)];
      rewrite Hh; try congruence.
    intros [= ->]. lia.
Qed.

(** X9.  The two stores do not see each other's writes: a [set] changes
    no result of [get_session], a [set_session] changes no result of
    [get], and no transaction event changes a result of [get_session]. *)
Theorem stores_are_independent st txnid subtxnid fc :
  reachable st -> txnid <> InvalidTransactionId ->
  (exists r st',
     set txnid subtxnid fc st = Some (r, st') /\
     forall fcg, (get_session fcg st').1 = (get_session fcg st).1) /\
  (forall txnid' fcg,
     fst <$> get txnid' fcg (set_session fc st).2 = fst <$> get txnid' fcg st) /\
  (forall event fcg,
     (get_session fcg (transaction_callback event st)).1 = (get_session fcg st).1).
Proof.
  intros Hr Htx.
  pose proof (reachable_invariant st Hr) as Hinv.
  pose proof (reachable_session_invariant st Hr) as Hsinv. repeat split.
  - destruct (set_cases false txnid subtxnid fc st Hinv Htx)
      as [[r Hs] | (nm & vvar & st' & Hnm & Hty & Hs & Hp)]; [by eauto |].
    eexists _, st'. split; [exact Hs |]. intros fcg.
    apply get_session_agree. destruct (arg_name fcg) as [y |]; [| done].
    destruct Hp as [He _ Hst _ Hfr _ _ _ _]. rewrite Hst. split; [done |].
    intros vy Hvy. apply Hfr. intros Heq.
    apply (session_head_not_transactional _ _ _ (session_heads st y vy Hsinv Hvy)).
    rewrite Heq. by eapply entered_transactional.
  - intros txnid' fcg.
    destruct (set_session_cases fc st)
      as [[r Hs] | (nm & vvar & st' & Hnm & Hty & Hs & Hp)]; rewrite Hs; simpl; [done |].
    destruct Hp as [He Hlu Hct Hfr _ _ _ _].
    unfold get. rewrite Hlu, Hct.
    destruct (arg_name fcg) as [y |]; [| done].
    destruct (arg_type fcg =? InvalidOid); [done |].
    destruct (_ || _); [done |].
    destruct (current_tab st) as [tab |] eqn:Htab; [| done].
    destruct (tab !! y) as [vy |] eqn:Hvy; [| done].
    simpl. rewrite Hfr; [done |]. intros Heq.
    apply (session_entered_not_transactional _ _ _ _ _ _ He).
    rewrite <- Heq. by eapply head_transactional.
  - intros event fcg.
    destruct (transaction_callback_statics event st) as (_ & _ & Hs & Hm & _).
    apply get_session_agree. rewrite Hs, Hm. by destruct (arg_name fcg).
Qed.

(** X10.  The first [set] of a top-level transaction starts from an empty
    table: whether the call returns or raises while it copies its payload,
    afterwards the table holds the written name and no other, so a [get]
    of any other name returns the default, whatever the previous
    transaction had stored. *)
Theorem new_transaction_starts_empty st txnid subtxnid fc x :
  txnid <> InvalidTransactionId -> last_used_txnid st <> txnid ->
  arg_name fc = Some x -> arg_type fc <> InvalidOid ->
  exists r st',
    set txnid subtxnid fc st = Some (r, st') /\
    last_used_txnid st' = txnid /\
    current_tab st' =
      Some {[ x := {| name := x; variable_value := Embedded CurrentTab x |} ]} /\
    previous (memory st' (Embedded CurrentTab x)) = None /\
    forall y fcg, y <> x -> arg_name fcg = Some y -> arg_type fcg <> InvalidOid ->
      get txnid fcg st' = Some (default_value fcg, st').
Proof.
  intros Htx Hlu Hx Hty.
  destruct (set_spec txnid subtxnid fc x st Hx Hty) as (vvar & st' & Hs & Hp); [done |].
  eexists _, st'. split; [exact Hs |].
  destruct Hp as [He Hlu' _ _ _ _ _ _ _].
  assert (Hres : resolved txnid st = ∅).
  { unfold resolved. by destruct (Z.eqb_spec (last_used_txnid st) txnid). }
  rewrite Hres in He.
  destruct He as [E1 E2 E3 E4 E5 | var E1 | var E1]; [| by rewrite lookup_empty in E1 ..].
  subst vvar. rewrite insert_empty in E3. repeat split; try done.
  intros y fcg Hne Hy Hgty. apply get_default with y; [done | done |].
  right; right. eexists. split; [exact E3 |]. by rewrite lookup_singleton_ne.
Qed.

End Frames.

Section Aborts.
Context `{Host}.

(** The inner loop stops on the first node of the chain that was written
    before [xact_id]. *)
Lemma unwind_to mem xact_id p l1 q l2 fuel :
  chain mem p (l1 ++ q :: l2) ->
  Forall (fun r => xact_id <= subxactid (mem r)) l1 ->
  subxactid (mem q) < xact_id ->
  (length l1 < fuel)%nat ->
  unwind fuel mem xact_id p = Some (Use q) /\ chain mem q (q :: l2).
Proof.
  revert p fuel. induction l1 as [| a l1 IH]; intros p fuel Hc Hall Hq Hfuel.
  - simpl in Hc. destruct (chain_head _ _ _ Hc) as [t Ht]. injection Ht as -> ->.
    split; [| done]. destruct fuel as [| fuel]; [simpl in Hfuel; lia |]. simpl.
    destruct (Z.leb_spec xact_id (subxactid (mem p))); [lia | done].
  - apply Forall_cons_1 in Hall as [Ha Hall].
    simpl in Hc. destruct (chain_head _ _ _ Hc) as [t Ht]. injection Ht as -> _.
    inversion Hc as [p' Hp Heq | p' p'' l' Hp Hc' Heq]; subst.
    { by destruct l1. }
    destruct fuel as [| fuel]; [simpl in Hfuel; lia |]. simpl.
    destruct (Z.leb_spec xact_id (subxactid (mem p))); [| lia].
    rewrite Hp. apply IH; try done. simpl in Hfuel. lia.
Qed.

(** Unwinding to [xact_id'] and then to a lower or equal [xact_id] is
    unwinding to [xact_id]. *)
Lemma unwind_twice mem xact_id xact_id' p l fuel :
  chain mem p l -> (length l <= fuel)%nat -> xact_id <= xact_id' ->
  match unwind fuel mem xact_id' p with
  | Some (Use q) => unwind fuel mem xact_id q = unwind fuel mem xact_id p
  | Some Remove => unwind fuel mem xact_id p = Some Remove
  | None => False
  end.
Proof.
  intros Hc; revert fuel; induction Hc as [p Hp | p q l Hp Hq IH]; intros fuel Hf Hle.
  - destruct fuel as [| fuel]; simpl in *; [lia |].
    destruct (Z.leb_spec xact_id' (subxactid (mem p))) as [H1 | H1]; [| done].
    rewrite Hp. destruct (Z.leb_spec xact_id (subxactid (mem p))); [done | lia].
  - destruct fuel as [| fuel]; simpl in *; [lia |].
    destruct (Z.leb_spec xact_id' (subxactid (mem p))) as [H1 | H1]; [| done].
    rewrite Hp. destruct (Z.leb_spec xact_id (subxactid (mem p))); [| lia].
    specialize (IH fuel ltac:(lia) Hle).
    destruct (unwind fuel mem xact_id' q) as [[| r] |] eqn:Hu; try done.
    destruct (unwind_enough_fuel mem xact_id q l fuel Hq ltac:(lia)) as [u Hu'].
    rewrite Hu' in IH |- *.
    change (unwind (S fuel) mem xact_id r = Some u).
    apply unwind_more_fuel with fuel; [done | lia].
Qed.

Lemma table_chains o st tab :
  invariant o st -> current_tab st = Some tab ->
  (forall n var, tab !! n = Some var -> name var = n) /\
  exists N, forall n var, tab !! n = Some var ->
    exists l, chain (memory st) (variable_value var) l /\ (length l <= N)%nat.
Proof.
  intros [_ Hgood] Htab. specialize (Hgood tab Htab). split.
  - intros n var. by apply good_table_names with o (memory st)
      (allocated st TopTransactionContext).
  - apply chains_bounded. intros n var Hl. destruct Hgood as [own Hgood].
    destruct (Hgood n var Hl) as (_ & l & Hc & _). by exists l.
Qed.

(** X11.  After the abort of [xact_id] a variable points to the newest
    node of its chain that was written before [xact_id]: the nodes above
    it are dropped from the chain, that node and the ones below it are as
    they were, and [get] reads that node. *)
Theorem abort_lands_on_newest_older st tab x var l1 q l2 xact_id parent_xact_id :
  reachable st -> current_tab st = Some tab -> tab !! x = Some var ->
  chain (memory st) (variable_value var) (l1 ++ q :: l2) ->
  Forall (fun r => xact_id <= subxactid (memory st r)) l1 ->
  subxactid (memory st q) < xact_id ->
  exists fuel0, forall fuel, (fuel0 <= fuel)%nat ->
    exists st' tab',
      subtransaction_callback fuel SUBXACT_EVENT_ABORT_SUB xact_id parent_xact_id st
        = Some st' /\
      current_tab st' = Some tab' /\
      tab' !! x = Some {| name := x; variable_value := q |} /\
      memory st' = memory st /\
      chain (memory st') q (q :: l2) /\
      forall fcg, arg_name fcg = Some x -> arg_type fcg <> InvalidOid ->
        last_used_txnid st <> InvalidTransactionId ->
        get (last_used_txnid st) fcg st'
          = Some (read (memory st q) (arg_type fcg), st').
Proof.
  intros Hr Htab Hl Hc Hall Hq.
  pose proof (reachable_invariant st Hr) as Hinv.
  destruct (subtransaction_callback_returns false st Hinv) as [fuel0 Hret].
  exists (fuel0 `max` S (length l1))%nat. intros fuel Hfuel.
  destruct (Hret fuel SUBXACT_EVENT_ABORT_SUB xact_id parent_xact_id ltac:(lia)) as [st' Hcb].
  destruct (subtransaction_callback_abort _ _ _ _ _ _ _ Hinv Htab Hcb)
    as (tab' & -> & _ & Hl').
  destruct (unwind_to (memory st) xact_id _ l1 q l2 fuel Hc Hall Hq ltac:(lia)) as [Hu Hcq].
  destruct (table_chains false st tab Hinv Htab) as [Hnames _].
  assert (Hx : tab' !! x = Some {| name := x; variable_value := q |}).
  { rewrite Hl', Hl. simpl. unfold unwound_entry. by rewrite Hu, (Hnames x var Hl). }
  exists (with_current_tab (Some tab') st), tab'. repeat split; try done.
  intros fcg Hgn Hgt Htx.
  by rewrite (get_found (last_used_txnid st) fcg (with_current_tab (Some tab') st)
               x tab' _ Hgn Hgt Htx eq_refl eq_refl Hx).
Qed.

(** X12.  Aborts compose: the abort of [xact_id'] followed by the abort
    of a lower or equal [xact_id] leaves the state that the abort of
    [xact_id] alone leaves.  So the event for a nested subtransaction may
    come before that of its parent or be left out, and an abort event
    delivered twice does nothing the second time. *)
Theorem aborts_compose st xact_id xact_id' parent1 parent2 parent3 :
  reachable st -> xact_id <= xact_id' ->
  exists fuel0, forall fuel, (fuel0 <= fuel)%nat ->
    exists st1 st2,
      subtransaction_callback fuel SUBXACT_EVENT_ABORT_SUB xact_id' parent1 st = Some st1 /\
      subtransaction_callback fuel SUBXACT_EVENT_ABORT_SUB xact_id parent2 st1 = Some st2 /\
      subtransaction_callback fuel SUBXACT_EVENT_ABORT_SUB xact_id parent3 st = Some st2.
Proof.
  intros Hr Hle. pose proof (reachable_invariant st Hr) as Hinv.
  destruct (current_tab st) as [tab |] eqn:Htab.
  2:{ exists 0%nat. intros fuel _. exists st, st.
      by rewrite !subtransaction_callback_other by auto. }
  destruct (table_chains false st tab Hinv Htab) as [Hnames [N HN]].
  exists N. intros fuel Hfuel.
  assert (Hsome : forall S n var, tab !! n = Some var ->
            is_Some (unwind fuel (memory st) S (variable_value var))).
  { intros S n var Hl. destruct (HN n var Hl) as (l & Hc & Hlen).
    apply unwind_enough_fuel with l; [done | lia]. }
  unfold subtransaction_callback. rewrite Htab.
  destruct (callback_loop fuel (memory st) xact_id' tab Hnames (Hsome xact_id'))
    as (tab1 & Hf1 & Hl1).
  destruct (callback_loop fuel (memory st) xact_id tab Hnames (Hsome xact_id))
    as (tab3 & Hf3 & Hl3).
  rewrite Hf1, Hf3. simpl.
  (* each entry, unwound twice *)
  assert (Htwice : forall n var, tab !! n = Some var ->
            unwound_entry fuel (memory st) xact_id' var
              ≫= unwound_entry fuel (memory st) xact_id
            = unwound_entry fuel (memory st) xact_id var).
  { intros n var Hl. destruct (HN n var Hl) as (l & Hc & Hlen).
    pose proof (unwind_twice (memory st) xact_id xact_id' _ l fuel Hc ltac:(lia) Hle) as Ht.
    unfold unwound_entry.
    destruct (unwind fuel (memory st) xact_id' (variable_value var)) as [[| q] |];
      simpl; [by rewrite Ht | by rewrite Ht | done]. }
  assert (Hnames1 : forall n var, tab1 !! n = Some var -> name var = n).
  { intros n var. rewrite Hl1. destruct (tab !! n) as [v |] eqn:Hv; simpl; [| done].
    unfold unwound_entry. destruct (unwind _ _ _ _) as [[| q] |]; try done.
    intros [= <-]. simpl. by apply Hnames. }
  assert (Hsome1 : forall n var, tab1 !! n = Some var ->
            is_Some (unwind fuel (memory st) xact_id (variable_value var))).
  { intros n var Hv1. pose proof Hv1 as Hv1'. rewrite Hl1 in Hv1'.
    destruct (tab !! n) as [v |] eqn:Hv; simpl in Hv1'; [| done].
    destruct (HN n v Hv) as (l & Hc & Hlen).
    pose proof (unwind_twice (memory st) xact_id xact_id' _ l fuel Hc ltac:(lia) Hle) as Ht.
    unfold unwound_entry in Hv1'.
    destruct (unwind fuel (memory st) xact_id' (variable_value v)) as [[| q] |];
      try done.
    injection Hv1' as <-. simpl. rewrite Ht. by eapply Hsome. }
  destruct (callback_loop fuel (memory st) xact_id tab1 Hnames1 Hsome1)
    as (tab2 & Hf2 & Hl2).
  assert (tab2 = tab3) as ->.
  { apply map_eq. intros k. rewrite Hl2, Hl1, Hl3.
    destruct (tab !! k) as [v |] eqn:Hv; simpl; [| done]. by apply Htwice with k. }
  exists (with_current_tab (Some tab1) st), (with_current_tab (Some tab3) st).
  split; [done |]. split; [| done]. simpl. by rewrite Hf2.
Qed.

(** X13.  A released savepoint does not protect what was written in it:
    after the first write of [x] in the transaction, made in subtransaction
    [S2], the commit event of [S2] changes nothing, and the abort of an
    enclosing subtransaction [S1 <= S2] removes [x]. *)
Theorem released_savepoint_rolls_back_with_parent
    st txnid S1 S2 x ty v parent1 parent2 :
  reachable st -> txnid <> InvalidTransactionId -> ty <> InvalidOid ->
  storable ty = true ->
  S1 <= S2 ->
  resolved txnid st !! x = None ->
  exists st1,
    set txnid S2 (call x ty v) st = Some (Return v, st1) /\
    exists fuel0, forall fuel, (fuel0 <= fuel)%nat ->
      subtransaction_callback fuel SUBXACT_EVENT_COMMIT_SUB S2 parent1 st1 = Some st1 /\
      exists st2 tab2,
        subtransaction_callback fuel SUBXACT_EVENT_ABORT_SUB S1 parent2 st1 = Some st2 /\
        current_tab st2 = Some tab2 /\ tab2 !! x = None /\
        forall fcg, arg_name fcg = Some x -> arg_type fcg <> InvalidOid ->
          get txnid fcg st2 = Some (default_value fcg, st2).
Proof.
  intros Hr Htx Hty Hst Hle Hnew.
  destruct (set_first st txnid S2 x ty v Hr Htx Hty Hst Hnew)
    as (st1 & tab1 & var1 & Hs1 & Hr1 & Hlu1 & Htab1 & Hl1 & Hm1).
  exists st1. split; [done |].
  pose proof (reachable_invariant st1 Hr1) as Hinv.
  destruct (subtransaction_callback_returns false st1 Hinv) as [fuel0 Hret].
  exists (fuel0 `max` 1)%nat. intros fuel Hfuel.
  split; [by apply subtransaction_callback_other; left |].
  destruct (Hret fuel SUBXACT_EVENT_ABORT_SUB S1 parent2 ltac:(lia)) as [st2 Hcb].
  destruct (subtransaction_callback_abort _ _ _ _ _ _ _ Hinv Htab1 Hcb)
    as (tab2 & -> & _ & Hl2).
  assert (Hx : tab2 !! x = None).
  { rewrite Hl2, Hl1. simpl. unfold unwound_entry.
    destruct fuel as [| fuel]; [lia |]. simpl. rewrite Hm1. simpl.
    by destruct (Z.leb_spec S1 S2); [| lia]. }
  exists (with_current_tab (Some tab2) st1), tab2. repeat split; try done.
  intros fcg Hgn Hgt. apply get_default with x; [done | done |].
  right; right. by exists tab2.
Qed.

End Aborts.

Section Registration.
Context `{Host}.

Lemma register_callbacks_flags st :
  subtransaction_callback_registered (register_callbacks st) = true /\
  transaction_callback_registered (register_callbacks st) = true.
Proof.
  unfold register_callbacks. destruct st as [? ? ? sreg treg ? ? ?]. simpl.
  by destruct treg, sreg.
Qed.

Lemma new_table_if_needed_flags txnid st :
  subtransaction_callback_registered (new_table_if_needed txnid st)
    = subtransaction_callback_registered st /\
  transaction_callback_registered (new_table_if_needed txnid st)
    = transaction_callback_registered st.
Proof. unfold new_table_if_needed. by destruct (_ =? _). Qed.

Lemma enter_flags nm subtxnid tab st :
  subtransaction_callback_registered (enter nm subtxnid tab st).2
    = subtransaction_callback_registered st /\
  transaction_callback_registered (enter nm subtxnid tab st).2
    = transaction_callback_registered st.
Proof.
  unfold enter. destruct (tab !! nm); [| done]. by destruct (_ <? _).
Qed.

Lemma store_value_flags cx vvar fc st :
  match store_value cx vvar fc st with
  | inl _ => True
  | inr st' =>
      subtransaction_callback_registered st' = subtransaction_callback_registered st /\
      transaction_callback_registered st' = transaction_callback_registered st
  end.
Proof.
  unfold store_value, palloc_memcpy. destruct (get_typbyval _); [done |].
  destruct (negb _); [| done]. destruct (_ =? _); [done |].
  by destruct (AllocSizeIsValid _).
Qed.

Lemma set_flags txnid subtxnid fc x st r st' :
  arg_name fc = Some x -> arg_type fc <> InvalidOid ->
  set txnid subtxnid fc st = Some (r, st') ->
  subtransaction_callback_registered st' = true /\
  transaction_callback_registered st' = true.
Proof.
  intros Hx Hty. unfold set. rewrite Hx.
  destruct (Z.eqb_spec (arg_type fc) InvalidOid) as [| _]; [done |].
  destruct (current_tab _) as [tab |]; [| done].
  pose proof (enter_flags x subtxnid tab
                (new_table_if_needed txnid (register_callbacks st))) as [He1 He2].
  destruct (enter _ _ _ _) as [vvar st2]. simpl in He1, He2.
  destruct (new_table_if_needed_flags txnid (register_callbacks st)) as [Hn1 Hn2].
  destruct (register_callbacks_flags st) as [Hr1 Hr2].
  pose proof (store_value_flags TopTransactionContext vvar fc st2) as Hsv.
  destruct (store_value TopTransactionContext vvar fc st2) as [e | st3].
  - intros [= <- <-]. split; congruence.
  - destruct Hsv as [Hs1 Hs2].
    destruct (arg_isnull fc); intros [= <- <-]; simpl; split; congruence.
Qed.

(** X14.  The callbacks follow the transaction.  After a successful [set]
    both are flagged as registered.  A transaction-end event (commit,
    abort, or their parallel variants) clears the flag of the
    subtransaction callback, and that of the transaction callback when
    built for PostgreSQL 16 or later; any other transaction event clears
    neither.  No transaction event writes [last_used_txnid], the tables or
    memory: the table of the finished transaction stays in [current_tab],
    fenced off by the transaction id alone. *)
Theorem callbacks_follow_the_transaction st txnid subtxnid fc x event :
  reachable st -> txnid <> InvalidTransactionId ->
  arg_name fc = Some x -> arg_type fc <> InvalidOid ->
  exists r st',
    set txnid subtxnid fc st = Some (r, st') /\
    subtransaction_callback_registered st' = true /\
    transaction_callback_registered st' = true /\
    let st'' := transaction_callback event st' in
    subtransaction_callback_registered st'' = negb (ends_transaction event) /\
    transaction_callback_registered st''
      = negb (ends_transaction event && (16 <=? PG_MAJORVERSION_NUM)) /\
    last_used_txnid st'' = txnid /\ current_tab st'' = current_tab st' /\
    session_tab st'' = session_tab st' /\ memory st'' = memory st'.
Proof.
  intros Hr Htx Hx Hty.
  destruct (set_spec txnid subtxnid fc x st Hx Hty) as (vvar & st' & Hs & Hp).
  { by eapply invariant_table_known, Htx; apply reachable_invariant. }
  destruct (set_flags _ _ _ _ _ _ _ Hx Hty Hs) as [Hf1 Hf2].
  eexists _, st'. split; [exact Hs |]. split; [done |]. split; [done |].
  destruct (transaction_callback_statics event st') as (H1 & H2 & H3 & H4 & _).
  destruct Hp as [_ Hlu _ _ _ _ _ _ _].
  cbv zeta. rewrite H1, H2, H3, H4, Hlu. repeat split.
  - unfold transaction_callback. rewrite Hf1.
    destruct event; simpl; try done; rewrite Hf2; by destruct (16 <=? _).
  - unfold transaction_callback. rewrite Hf1.
    destruct event; simpl; try done; rewrite Hf2; by destruct (16 <=? _).
Qed.

End Registration.

(** * Properties of [hooks] *)

Section HooksRows.
Variable omni_hook_types : nat -> option string.
Variable OMNI_HOOK_TYPE_COUNT : nat.
Variable hep : Omni.hook_entry_points_t.

Lemma hooks_entry_points_rows type n tupstore :
  (n <= length (Omni.entry_points hep type))%nat ->
  Omni.hooks_entry_points omni_hook_types hep type n tupstore =
    Some (tupstore ++ reverse (imap (Omni.hooks_values omni_hook_types hep type)
                                 (take n (Omni.entry_points hep type)))).
Proof.
  revert tupstore. induction n as [| i IH]; intros tupstore Hn; simpl.
  - by rewrite app_nil_r.
  - destruct (lookup_lt_is_Some_2 (Omni.entry_points hep type) i ltac:(lia)) as [hook Hh].
    rewrite Hh, IH by lia.
    rewrite (take_S_r _ _ _ Hh), imap_app, reverse_app, length_take_le by lia.
    simpl. rewrite Nat.add_0_r, <- app_assoc. done.
Qed.

Lemma hooks_types_rows n type tupstore :
  (forall t, (type <= t < type + n)%nat ->
     (Z.to_nat (Omni.entry_points_count hep t) <= length (Omni.entry_points hep t))%nat) ->
  Omni.hooks_types omni_hook_types hep n type tupstore =
    Some (tupstore ++ concat (Omni.rows_of_type omni_hook_types hep <$> seq type n)).
Proof.
  revert type tupstore. induction n as [| n IH]; intros type tupstore Hb; simpl.
  - by rewrite app_nil_r.
  - rewrite hooks_entry_points_rows by (apply Hb; lia).
    rewrite IH by (intros t Ht; apply Hb; lia).
    by rewrite <- app_assoc.
Qed.

Lemma length_rows_of_type type :
  (Z.to_nat (Omni.entry_points_count hep type) <= length (Omni.entry_points hep type))%nat ->
  length (Omni.rows_of_type omni_hook_types hep type)
    = Z.to_nat (Omni.entry_points_count hep type).
Proof.
  intros Hb. unfold Omni.rows_of_type.
  by rewrite length_reverse, length_imap, length_take_le.
Qed.

Lemma length_rows_before n :
  (forall t, (t < n)%nat ->
     (Z.to_nat (Omni.entry_points_count hep t) <= length (Omni.entry_points hep t))%nat) ->
  length (concat (Omni.rows_of_type omni_hook_types hep <$> seq 0 n))
    = Omni.rows_before hep n.
Proof.
  unfold Omni.rows_before. induction n as [| n IH]; intros Hb; [done |].
  rewrite seq_S, fmap_app, concat_app, length_app, sum_list_with_app, IH
    by (intros t Ht; apply Hb; lia).
  simpl. rewrite app_nil_r, length_rows_of_type by (apply Hb; lia). lia.
Qed.

(** X15.  [hooks] lists the hook types in the order of their numbers and,
    within a type, the entry points from the last of the array to the
    first, numbered from 1: the entry at index [i] of a type with [count]
    entries is row [count - 1 - i] of the type, with position
    [count - i].  Its module id is that of the owning handle, null when
    the entry has no handle, and its name is null when the entry has
    none.  There is one row per entry in use and no other row. *)
Theorem hooks_lists_newest_first :
  (forall t, (t < OMNI_HOOK_TYPE_COUNT)%nat ->
     (Z.to_nat (Omni.entry_points_count hep t) <= length (Omni.entry_points hep t))%nat) ->
  exists rows,
    Omni.hooks omni_hook_types OMNI_HOOK_TYPE_COUNT hep = Some rows /\
    length rows = Omni.rows_before hep OMNI_HOOK_TYPE_COUNT /\
    forall t i hook, (t < OMNI_HOOK_TYPE_COUNT)%nat ->
      Z.of_nat i < Omni.entry_points_count hep t ->
      Omni.entry_points hep t !! i = Some hook ->
      rows !! (Omni.rows_before hep t
               + (Z.to_nat (Omni.entry_points_count hep t) - 1 - i))%nat =
        Some {| Omni.hook_type := omni_hook_types t;
                Omni.hook_name := Omni.name hook;
                Omni.module_id := Omni.id <$> Omni.handle hook;
                Omni.pos := Omni.entry_points_count hep t - Z.of_nat i |}.
Proof.
  intros Hb. unfold Omni.hooks.
  rewrite hooks_types_rows by (intros t Ht; apply Hb; lia). simpl.
  eexists. split; [done |]. split; [by apply length_rows_before |].
  intros t i hook Ht Hi Hh.
  set (count := Z.to_nat (Omni.entry_points_count hep t)) in *.
  assert (Hic : (i < count)%nat) by (unfold count; lia).
  replace OMNI_HOOK_TYPE_COUNT with (t + S (OMNI_HOOK_TYPE_COUNT - S t))%nat by lia.
  rewrite seq_app, fmap_app, concat_app. simpl.
  rewrite lookup_app_r; rewrite length_rows_before by (intros u Hu; apply Hb; lia);
    [| lia].
  replace (Omni.rows_before hep t + (count - 1 - i) - Omni.rows_before hep t)%nat
    with (count - 1 - i)%nat by lia.
  assert (Hlen : length (Omni.rows_of_type omni_hook_types hep t) = count)
    by (by apply length_rows_of_type, Hb).
  rewrite lookup_app_l by lia.
  unfold Omni.rows_of_type. fold count.
  rewrite reverse_lookup; rewrite length_imap, length_take_le
    by (unfold count; apply Hb; lia); [| lia].
  replace (count - S (count - 1 - i))%nat with i by lia.
  rewrite list_lookup_imap, lookup_take_lt, Hh by lia. done.
Qed.

End HooksRows.

(** [hooks] on two hook types, one with three entry points. *)
Lemma hooks_lists_newest_first_witness :
  exists rows,
    Omni.hooks Omni.example_types 2 Omni.example_entry_points = Some rows /\
    length rows = Omni.rows_before Omni.example_entry_points 2 /\
    forall t i hook, (t < 2)%nat ->
      Z.of_nat i < Omni.entry_points_count Omni.example_entry_points t ->
      Omni.entry_points Omni.example_entry_points t !! i = Some hook ->
      rows !! (Omni.rows_before Omni.example_entry_points t
               + (Z.to_nat (Omni.entry_points_count Omni.example_entry_points t) - 1 - i))%nat =
        Some {| Omni.hook_type := Omni.example_types t;
                Omni.hook_name := Omni.name hook;
                Omni.module_id := Omni.id <$> Omni.handle hook;
                Omni.pos := Omni.entry_points_count Omni.example_entry_points t - Z.of_nat i |}.
Proof.
  apply (hooks_lists_newest_first Omni.example_types 2 Omni.example_entry_points).
  intros [| [| t]] Ht; simpl; lia.
Defined.

(** A write of [y] after [x] was written, seen from [x]. *)
Lemma writes_leave_other_names_witness :
  (exists r st',
     set (H := example_host) 100 1 (call "y" text 5) wrote_x_once = Some (r, st') /\
     fst <$> get (H := example_host) 100 (call "x" int4 0) st'
       = fst <$> get (H := example_host) 100 (call "x" int4 0) wrote_x_once) /\
  (get_session (H := example_host) (call "x" int4 0)
     (set_session (H := example_host) (call "y" text 5) wrote_x_once).2).1
    = (get_session (H := example_host) (call "x" int4 0) wrote_x_once).1.
Proof.
  apply (writes_leave_other_names (H := example_host) wrote_x_once 100 1
           (call "y" text 5) "y"%string "x"%string (call "x" int4 0)).
  - apply reachable_wrote_x_once.
  - done.
  - reflexivity.
  - reflexivity.
  - reflexivity.
  - done.
Defined.

(** The two stores after [x] was written in transaction 100. *)
Lemma stores_are_independent_witness :
  (exists r st',
     set (H := example_host) 100 2 (call "s" int4 4) wrote_x_once = Some (r, st') /\
     forall fcg, (get_session (H := example_host) fcg st').1
                 = (get_session (H := example_host) fcg wrote_x_once).1) /\
  (forall txnid' fcg,
     fst <$> get (H := example_host) txnid' fcg
               (set_session (H := example_host) (call "s" int4 4) wrote_x_once).2
       = fst <$> get (H := example_host) txnid' fcg wrote_x_once) /\
  (forall event fcg,
     (get_session (H := example_host) fcg
        (transaction_callback (H := example_host) event wrote_x_once)).1
       = (get_session (H := example_host) fcg wrote_x_once).1).
Proof.
  apply (stores_are_independent (H := example_host) wrote_x_once 100 2 (call "s" int4 4)).
  - apply reachable_wrote_x_once.
  - done.
Defined.

(** Transaction 200 writes [y] after transaction 100 wrote [x]. *)
Lemma new_transaction_starts_empty_witness :
  exists r st',
    set (H := example_host) 200 1 (call "y" int4 5) wrote_x_once = Some (r, st') /\
    last_used_txnid st' = 200 /\
    current_tab st' =
      Some {[ "y"%string := {| name := "y"; variable_value := Embedded CurrentTab "y" |} ]} /\
    previous (memory st' (Embedded CurrentTab "y")) = None /\
    forall y fcg, y <> "y"%string -> arg_name fcg = Some y -> arg_type fcg <> InvalidOid ->
      get (H := example_host) 200 fcg st' = Some (default_value fcg, st').
Proof.
  apply (new_transaction_starts_empty (H := example_host) wrote_x_once 200 1
           (call "y" int4 5) "y"%string).
  - done.
  - vm_compute. discriminate.
  - reflexivity.
  - done.
Defined.

(** The abort of subtransaction 2 after writes in 1 and 2. *)
Lemma abort_lands_on_newest_older_witness :
  exists fuel0, forall fuel, (fuel0 <= fuel)%nat ->
    exists st' tab',
      subtransaction_callback fuel SUBXACT_EVENT_ABORT_SUB 2 1 wrote_x_twice = Some st' /\
      current_tab st' = Some tab' /\
      tab' !! "x"%string
        = Some {| name := "x"; variable_value := Embedded CurrentTab "x" |} /\
      memory st' = memory wrote_x_twice /\
      chain (memory st') (Embedded CurrentTab "x") [Embedded CurrentTab "x"] /\
      forall fcg, arg_name fcg = Some "x"%string -> arg_type fcg <> InvalidOid ->
        last_used_txnid wrote_x_twice <> InvalidTransactionId ->
        get (H := example_host) (last_used_txnid wrote_x_twice) fcg st'
          = Some (read (H := example_host)
                    (memory wrote_x_twice (Embedded CurrentTab "x")) (arg_type fcg), st').
Proof.
  apply (abort_lands_on_newest_older (H := example_host) wrote_x_twice
           {[ "x"%string := {| name := "x"; variable_value := Chunk TopTransactionContext 0 |} ]}
           "x"%string {| name := "x"; variable_value := Chunk TopTransactionContext 0 |}
           [Chunk TopTransactionContext 0] (Embedded CurrentTab "x") [] 2 1).
  - apply reachable_wrote_x_twice.
  - reflexivity.
  - reflexivity.
  - apply chain_link with (Embedded CurrentTab "x"); [reflexivity |].
    apply chain_end. reflexivity.
  - repeat constructor. vm_compute. discriminate.
  - reflexivity.
Defined.

(** The aborts of subtransactions 3 and 2, against that of 2 alone. *)
Lemma aborts_compose_witness :
  exists fuel0, forall fuel, (fuel0 <= fuel)%nat ->
    exists st1 st2,
      subtransaction_callback fuel SUBXACT_EVENT_ABORT_SUB 3 2 wrote_x_twice = Some st1 /\
      subtransaction_callback fuel SUBXACT_EVENT_ABORT_SUB 2 1 st1 = Some st2 /\
      subtransaction_callback fuel SUBXACT_EVENT_ABORT_SUB 2 1 wrote_x_twice = Some st2.
Proof.
  apply (aborts_compose (H := example_host) wrote_x_twice 2 3 2 1 1).
  - apply reachable_wrote_x_twice.
  - lia.
Defined.

(** [x] written in subtransaction 2, which is released; subtransaction 1
    aborts. *)
Lemma released_savepoint_rolls_back_with_parent_witness :
  exists st1,
    set (H := example_host) 100 2 (call "x" int4 1) (initial_state zeroed)
      = Some (Return 1, st1) /\
    exists fuel0, forall fuel, (fuel0 <= fuel)%nat ->
      subtransaction_callback fuel SUBXACT_EVENT_COMMIT_SUB 2 1 st1 = Some st1 /\
      exists st2 tab2,
        subtransaction_callback fuel SUBXACT_EVENT_ABORT_SUB 1 0 st1 = Some st2 /\
        current_tab st2 = Some tab2 /\ tab2 !! "x"%string = None /\
        forall fcg, arg_name fcg = Some "x"%string -> arg_type fcg <> InvalidOid ->
          get (H := example_host) 100 fcg st2 = Some (default_value fcg, st2).
Proof.
  apply (released_savepoint_rolls_back_with_parent (H := example_host)
           (initial_state zeroed) 100 1 2 "x"%string int4 1 1 0).
  - apply reachable_initial.
  - done.
  - done.
  - reflexivity.
  - lia.
  - reflexivity.
Defined.

(** A [set] followed by the commit of its transaction. *)
Lemma callbacks_follow_the_transaction_witness :
  exists r st',
    set (H := example_host) 100 1 (call "x" int4 1) (initial_state zeroed) = Some (r, st') /\
    subtransaction_callback_registered st' = true /\
    transaction_callback_registered st' = true /\
    let st'' := transaction_callback (H := example_host) XACT_EVENT_COMMIT st' in
    subtransaction_callback_registered st'' = negb (ends_transaction XACT_EVENT_COMMIT) /\
    transaction_callback_registered st''
      = negb (ends_transaction XACT_EVENT_COMMIT
              && (16 <=? PG_MAJORVERSION_NUM (Host := example_host))) /\
    last_used_txnid st'' = 100 /\ current_tab st'' = current_tab st' /\
    session_tab st'' = session_tab st' /\ memory st'' = memory st'.
Proof.
  apply (callbacks_follow_the_transaction (H := example_host) (initial_state zeroed)
           100 1 (call "x" int4 1) "x"%string XACT_EVENT_COMMIT).
  - apply reachable_initial.
  - done.
  - reflexivity.
  - done.
Defined.

Section SessionMemory.
Context `{Host}.

Lemma set_session_again fc s st n :
  arg_name fc = Some s -> arg_type fc <> InvalidOid ->
  is_Some (default ∅ (session_tab st) !! s) ->
  let st' := Nat.iter n (fun st => (set_session fc st).2) st in
  is_Some (default ∅ (session_tab st') !! s) /\
  allocated st' TopMemoryContext
    = (allocated st TopMemoryContext + n * S (payload_chunks fc))%nat /\
  allocated st' TopTransactionContext = allocated st TopTransactionContext.
Proof.
  intros Hs Hty Hin. induction n as [| n IH]; simpl.
  - split; [done |]. split; [lia | done].
  - destruct IH as (Hin' & Ha & Ht).
    destruct (set_session_spec fc s (Nat.iter n (fun st => (set_session fc st).2) st) Hs Hty)
      as (vvar & st' & Heq & Hp).
    rewrite Heq. simpl.
    destruct (set_session_then_lookup _ _ _ _ _ Hp) as (tab' & var' & Htab & Hl & _).
    destruct Hp as [He _ _ _ _ _ _ _].
    split; [rewrite Htab; simpl; by rewrite Hl |].
    destruct He as [E1 | var E1 E2 E3 E4 E5 E6].
    + rewrite E1 in Hin'. by destruct Hin'.
    + rewrite E5, E4, Ha, Ht. split; [lia | done].
Qed.

(** X16.  Every [set_session] of a name that is already in the session
    table takes a chunk of [TopMemoryContext] for its node, and one more
    for the copy of a non-null by-reference value that can be stored;
    nothing gives them back.  [n] such calls in a row take [n] times
    that many chunks, and none of the transaction's context. *)
Theorem set_session_allocates_per_overwrite fc s st tab n :
  arg_name fc = Some s -> arg_type fc <> InvalidOid ->
  session_tab st = Some tab -> is_Some (tab !! s) ->
  let st' := Nat.iter n (fun st => (set_session fc st).2) st in
  let copy := if get_typbyval (arg_type fc) || arg_isnull fc
                   || negb (storable (arg_type fc))
              then 0%nat else 1%nat in
  allocated st' TopMemoryContext = (allocated st TopMemoryContext + n * (1 + copy))%nat /\
  allocated st' TopTransactionContext = allocated st TopTransactionContext.
Proof.
  intros Hs Hty Htab Hin.
  destruct (set_session_again fc s st n Hs Hty) as (_ & Ha & Ht); [by rewrite Htab |].
  cbv zeta. split; [| done]. rewrite Ha. f_equal. f_equal. f_equal.
  unfold payload_chunks, copy_raises.
  destruct (get_typbyval (arg_type fc)), (arg_isnull fc), (storable (arg_type fc)); done.
Qed.

End SessionMemory.

(** Five more writes of [s] in the session that wrote it once, with an
    [integer] and with a [text]. *)
Lemma set_session_allocates_per_overwrite_witness :
  (let st' := Nat.iter 5 (fun st => (set_session (H := example_host) (call "s" int4 3) st).2)
                session_wrote_s_once in
   allocated st' TopMemoryContext = (allocated session_wrote_s_once TopMemoryContext + 5)%nat /\
   allocated st' TopTransactionContext
     = allocated session_wrote_s_once TopTransactionContext) /\
  (let st' := Nat.iter 5 (fun st => (set_session (H := example_host) (call "s" text 3) st).2)
                session_wrote_s_once in
   allocated st' TopMemoryContext = (allocated session_wrote_s_once TopMemoryContext + 10)%nat /\
   allocated st' TopTransactionContext
     = allocated session_wrote_s_once TopTransactionContext).
Proof.
  split.
  - apply (set_session_allocates_per_overwrite (H := example_host) (call "s" int4 3)
             "s"%string session_wrote_s_once
             {[ "s"%string := {| name := "s"; variable_value := Embedded SessionTab "s" |} ]} 5).
    + reflexivity.
    + done.
    + reflexivity.
    + by eexists.
  - apply (set_session_allocates_per_overwrite (H := example_host) (call "s" text 3)
             "s"%string session_wrote_s_once
             {[ "s"%string := {| name := "s"; variable_value := Embedded SessionTab "s" |} ]} 5).
    + reflexivity.
    + done.
    + reflexivity.
    + by eexists.
Defined.
